(** * ai-photo-rotator: the generation client and the page orchestration

    A shallow embedding of [src/services/geminiService.ts] (the retry
    wrapper, the prompt parser, the image renderer), of the second copy of
    the service found in [src/unnamed/part_001], and of the page component
    [App] of [src/unnamed/part_000] ([resetState], [processImage]).

    JavaScript strings are sequences of UTF-16 code units; [length],
    [includes], [indexOf], ... work on code units, so a string is a
    [list N] here.  The numbers that count (retry budget, delays in
    milliseconds, indices) are integers.  Asynchronous operations are
    state transformers on an explicit environment, each invocation
    settles, and a rejected promise is the [Throw] outcome. *)

From Equations Require Import Equations.
From Stdlib Require Import String Ascii ZArith NArith Bool Lia List.
Import ListNotations.
Open Scope Z_scope.

(** ** The JavaScript runtime the code relies on *)

Module JS.

Definition jsstring := list N.

(** A source literal, code unit by code unit (all literals of the program are ASCII). *)
Definition js (s : string) : jsstring :=
  map N_of_ascii (list_ascii_of_string s).

(** The same, with every apostrophe standing for a double quote: used to
    write JSON texts. *)
Definition jsq (s : string) : jsstring :=
  map (fun c => if N.eqb c 39 then 34%N else c) (js s).

Definition str_eqb (a b : jsstring) : bool :=
  if list_eq_dec N.eq_dec a b then true else false.

Fixpoint startsWith (s prefix : jsstring) : bool :=
  match prefix, s with
  | [], _ => true
  | _ :: _, [] => false
  | p :: prefix', c :: s' => N.eqb p c && startsWith s' prefix'
  end.

(** [String.prototype.includes]. *)
Fixpoint includes (s needle : jsstring) : bool :=
  startsWith s needle ||
  match s with
  | [] => false
  | _ :: s' => includes s' needle
  end.

Fixpoint indexOf_from (s needle : jsstring) (i : Z) : Z :=
  if startsWith s needle then i
  else match s with
       | [] => -1
       | _ :: s' => indexOf_from s' needle (i + 1)
       end.

(** [String.prototype.indexOf]: the first position, or -1. *)
Definition indexOf (s needle : jsstring) : Z := indexOf_from s needle 0.

Fixpoint lastIndexOf_from (s needle : jsstring) (i : Z) : Z :=
  match s with
  | [] => if startsWith [] needle then i else -1
  | _ :: s' =>
      let later := lastIndexOf_from s' needle (i + 1) in
      if later =? -1 then (if startsWith s needle then i else -1) else later
  end.

(** [String.prototype.lastIndexOf]: the last position, or -1. *)
Definition lastIndexOf (s needle : jsstring) : Z := lastIndexOf_from s needle 0.

Definition clamp (len x : Z) : Z := Z.min (Z.max x 0) len.

(** [String.prototype.substring]: both ends clamped to the string, and
    swapped when out of order. *)
Definition substring (s : jsstring) (a b : Z) : jsstring :=
  let len := Z.of_nat (length s) in
  let a' := clamp len a in
  let b' := clamp len b in
  let lo := Z.min a' b' in
  let hi := Z.max a' b' in
  firstn (Z.to_nat (hi - lo)) (skipn (Z.to_nat lo) s).

(** [Array.prototype.slice(0, n)]. *)
Definition slice0 {A} (n : nat) (l : list A) : list A := firstn n l.

(** Simple case folding of the [i] flag without the [u] flag: only the
    ASCII letters fold onto ASCII letters. *)
Definition lower (c : N) : N :=
  if (65 <=? c)%N && (c <=? 90)%N then (c + 32)%N else c.

Fixpoint startsWith_ci (s prefix : jsstring) : bool :=
  match prefix, s with
  | [], _ => true
  | _ :: _, [] => false
  | p :: prefix', c :: s' => N.eqb (lower p) (lower c) && startsWith_ci s' prefix'
  end.

(** [s.replace(/pat/g, '')] for a literal pattern: the matches are taken
    from left to right and do not overlap.  [skip] counts the code units of
    the current match still to drop. *)
Fixpoint removeAll_aux (matches : jsstring -> bool) (plen skip : nat)
    (s : jsstring) : jsstring :=
  match s with
  | [] => []
  | c :: s' =>
      match skip with
      | S k => removeAll_aux matches plen k s'
      | O => if matches s then removeAll_aux matches plen (plen - 1) s'
             else c :: removeAll_aux matches plen 0 s'
      end
  end.

Definition removeAll (pat s : jsstring) : jsstring :=
  removeAll_aux (fun t => startsWith t pat) (length pat) 0 s.

Definition removeAll_ci (pat s : jsstring) : jsstring :=
  removeAll_aux (fun t => startsWith_ci t pat) (length pat) 0 s.

(** White space and line terminators, as [trim] sees them. *)
Definition isWhiteSpace (c : N) : bool :=
  ((9 <=? c) && (c <=? 13) || (c =? 32) || (c =? 160) || (c =? 5760)
   || (8192 <=? c) && (c <=? 8202) || (c =? 8232) || (c =? 8233)
   || (c =? 8239) || (c =? 8287) || (c =? 12288) || (c =? 65279))%N.

Fixpoint trimStart (s : jsstring) : jsstring :=
  match s with
  | c :: s' => if isWhiteSpace c then trimStart s' else s
  | [] => []
  end.

Definition trim (s : jsstring) : jsstring :=
  rev (trimStart (rev (trimStart s))).

(** How a template literal prints a value that may be [undefined]. *)
Definition template (o : option jsstring) : jsstring :=
  match o with
  | Some s => s
  | None => js "undefined"
  end.

(** Thrown values.  An instance of [Error] always has a string [message];
    any other thrown value may or may not carry one.  [status] is the
    numeric [status] property, when there is one. *)
Inductive thrown : Type :=
| ErrorObject (status : option Z) (message : jsstring)
| OtherValue (status : option Z) (message : option jsstring).

Definition thrown_status (e : thrown) : option Z :=
  match e with
  | ErrorObject st _ => st
  | OtherValue st _ => st
  end.

Definition thrown_message (e : thrown) : option jsstring :=
  match e with
  | ErrorObject _ m => Some m
  | OtherValue _ m => m
  end.

(** A settled promise: fulfilled with a value, or rejected with a thrown
    value. *)
Inductive outcome (A : Type) : Type :=
| Return (a : A)
| Throw (e : thrown).
Arguments Return {A} a.
Arguments Throw {A} e.

(** [new Error(msg)]. *)
Definition newError (msg : string) : thrown := ErrorObject None (js msg).

(** *** JSON values and [JSON.parse]

    A number keeps its lexeme: the program never looks at the value of a
    number.  An object keeps its members in source order; as in
    [JSON.parse], the last member with a given key is the one a property
    access sees. *)
#[local] Set Warnings "-register-all".
Inductive json : Type :=
| JNull
| JBool (b : bool)
| JNum (lexeme : jsstring)
| JStr (s : jsstring)
| JArr (elements : list json)
| JObj (members : list (jsstring * json)).

(** JSON white space: space, tab, line feed, carriage return. *)
Definition isJsonWs (c : N) : bool :=
  ((c =? 32) || (c =? 9) || (c =? 10) || (c =? 13))%N.

Fixpoint skipWs (s : jsstring) : jsstring :=
  match s with
  | c :: s' => if isJsonWs c then skipWs s' else s
  | [] => []
  end.

Definition isDigit (c : N) : bool := ((48 <=? c) && (c <=? 57))%N.

Definition hexval (c : N) : option N :=
  if isDigit c then Some (c - 48)%N
  else if ((97 <=? c) && (c <=? 102))%N then Some (c - 87)%N
  else if ((65 <=? c) && (c <=? 70))%N then Some (c - 55)%N
  else None.

Definition hex4 (a b c d : N) : option N :=
  match hexval a, hexval b, hexval c, hexval d with
  | Some x, Some y, Some z, Some t => Some (((x * 16 + y) * 16 + z) * 16 + t)%N
  | _, _, _, _ => None
  end.

Definition unescape (c : N) : option N :=
  (if c =? 34 then Some 34 else if c =? 92 then Some 92
   else if c =? 47 then Some 47 else if c =? 98 then Some 8
   else if c =? 102 then Some 12 else if c =? 110 then Some 10
   else if c =? 114 then Some 13 else if c =? 116 then Some 9
   else None)%N.

(** The characters of a string after its opening quote, up to the closing
    quote (34): the decoded string and the rest of the input.  A backslash
    (92) starts an escape, [u] (117) a four-digit one; control characters
    are not allowed. *)
Fixpoint parseChars (s : jsstring) : option (jsstring * jsstring) :=
  match s with
  | [] => None
  | c :: rest =>
      if (c =? 34)%N then Some ([], rest)
      else if (c =? 92)%N then
        match rest with
        | [] => None
        | e :: rest1 =>
            if (e =? 117)%N then
              match rest1 with
              | h1 :: h2 :: h3 :: h4 :: rest2 =>
                  match hex4 h1 h2 h3 h4, parseChars rest2 with
                  | Some u, Some (str, rest') => Some (u :: str, rest')
                  | _, _ => None
                  end
              | _ => None
              end
            else
              match unescape e, parseChars rest1 with
              | Some u, Some (str, rest') => Some (u :: str, rest')
              | _, _ => None
              end
        end
      else if (c <? 32)%N then None
      else match parseChars rest with
           | Some (str, rest') => Some (c :: str, rest')
           | None => None
           end
  end.

Fixpoint spanDigits (s : jsstring) : jsstring * jsstring :=
  match s with
  | c :: s' =>
      if isDigit c then let (ds, rest) := spanDigits s' in (c :: ds, rest)
      else ([], s)
  | [] => ([], [])
  end.

(** One or more digits. *)
Definition digits1 (s : jsstring) : option (jsstring * jsstring) :=
  match spanDigits s with
  | ([], _) => None
  | (ds, r) => Some (ds, r)
  end.

(** The parts of a number: an optional [-] (45); [0] (48) or digits that
    do not start with [0]; an optional fraction after [.] (46); an optional
    exponent after [e] or [E] (101, 69) with an optional sign (43, 45). *)
Definition optSign (s : jsstring) : jsstring * jsstring :=
  match s with
  | c :: r => if (c =? 45)%N then ([c], r) else ([], s)
  | [] => ([], s)
  end.

Definition intPart (s : jsstring) : option (jsstring * jsstring) :=
  match s with
  | c :: r => if (c =? 48)%N then Some ([c], r) else digits1 s
  | [] => None
  end.

Definition fracPart (s : jsstring) : option (jsstring * jsstring) :=
  match s with
  | c :: r =>
      if (c =? 46)%N then
        match digits1 r with
        | Some (ds, r') => Some (c :: ds, r')
        | None => None
        end
      else Some ([], s)
  | [] => Some ([], s)
  end.

Definition expPart (s : jsstring) : option (jsstring * jsstring) :=
  match s with
  | e :: r =>
      if (e =? 101)%N || (e =? 69)%N then
        let (sg, r1) :=
          match r with
          | g :: r' => if (g =? 43)%N || (g =? 45)%N then ([g], r') else ([], r)
          | [] => ([], r)
          end in
        match digits1 r1 with
        | Some (ds, r2) => Some (e :: sg ++ ds, r2)
        | None => None
        end
      else Some ([], s)
  | [] => Some ([], s)
  end.

(** [-? int frac? exp?]: the lexeme and the rest of the input. *)
Definition parseNumber (s : jsstring) : option (jsstring * jsstring) :=
  let (sign, s1) := optSign s in
  match intPart s1 with
  | None => None
  | Some (ip, s2) =>
      match fracPart s2 with
      | None => None
      | Some (fp, s3) =>
          match expPart s3 with
          | None => None
          | Some (ep, s4) => Some (sign ++ ip ++ fp ++ ep, s4)
          end
      end
  end.

(** [expect c s]: the input after the token [c], when [s] starts with it
    (after white space). *)
Definition expect (c : N) (s : jsstring) : option jsstring :=
  match skipWs s with
  | d :: r => if (d =? c)%N then Some r else None
  | [] => None
  end.

(** [true], [false], [null] or a number. *)
Definition parseLiteral (t : jsstring) : option (json * jsstring) :=
  if startsWith t (js "true") then Some (JBool true, skipn 4 t)
  else if startsWith t (js "false") then Some (JBool false, skipn 5 t)
  else if startsWith t (js "null") then Some (JNull, skipn 4 t)
  else match parseNumber t with
       | Some (lex, r) => Some (JNum lex, r)
       | None => None
       end.

(** Recursive descent on the JSON grammar; [fuel] bounds the nesting of
    calls.  The tokens are [{] 123, [}] 125, [[] 91, []] 93, the double
    quote 34, [:] 58 and [,] 44. *)
Fixpoint parseValue (fuel : nat) (s : jsstring) : option (json * jsstring) :=
  match fuel with
  | O => None
  | S fuel' =>
      match expect 123 s, expect 91 s, expect 34 s with
      | Some r, _, _ =>
          match expect 125 r with
          | Some r' => Some (JObj [], r')
          | None =>
              match parseMembers fuel' r with
              | Some (ms, r') => Some (JObj ms, r')
              | None => None
              end
          end
      | None, Some r, _ =>
          match expect 93 r with
          | Some r' => Some (JArr [], r')
          | None =>
              match parseElements fuel' r with
              | Some (vs, r') => Some (JArr vs, r')
              | None => None
              end
          end
      | None, None, Some r =>
          match parseChars r with
          | Some (str, r') => Some (JStr str, r')
          | None => None
          end
      | None, None, None => parseLiteral (skipWs s)
      end
  end
with parseElements (fuel : nat) (s : jsstring) : option (list json * jsstring) :=
  match fuel with
  | O => None
  | S fuel' =>
      match parseValue fuel' s with
      | None => None
      | Some (v, r) =>
          match expect 44 r, expect 93 r with
          | Some r', _ =>
              match parseElements fuel' r' with
              | Some (vs, r'') => Some (v :: vs, r'')
              | None => None
              end
          | None, Some r' => Some ([v], r')
          | None, None => None
          end
      end
  end
with parseMembers (fuel : nat) (s : jsstring)
    : option (list (jsstring * json) * jsstring) :=
  match fuel with
  | O => None
  | S fuel' =>
      match expect 34 s with
      | None => None
      | Some r =>
          match parseChars r with
          | None => None
          | Some (key, r1) =>
              match expect 58 r1 with
              | None => None
              | Some r2 =>
                  match parseValue fuel' r2 with
                  | None => None
                  | Some (v, r3) =>
                      match expect 44 r3, expect 125 r3 with
                      | Some r4, _ =>
                          match parseMembers fuel' r4 with
                          | Some (ms, r5) => Some ((key, v) :: ms, r5)
                          | None => None
                          end
                      | None, Some r4 => Some ([(key, v)], r4)
                      | None, None => None
                      end
                  end
              end
          end
      end
  end.

(** [JSON.parse]: [None] stands for the [SyntaxError] it throws.  Between
    two nested calls at least one code unit of the text is consumed for
    every two units of fuel, so twice the length of the text is enough. *)
Definition JSON_parse (text : jsstring) : option json :=
  match parseValue (2 * length text + 2) text with
  | Some (v, rest) =>
      match skipWs rest with
      | [] => Some v
      | _ :: _ => None
      end
  | None => None
  end.

(** A parser is adequate at some fuel when each of its successes consumes
    input and is found again with any fuel of at least twice the
    consumption. *)
Definition adequate {A} (parse : nat -> jsstring -> option (A * jsstring))
    (fuel : nat) : Prop :=
  forall s a r,
    parse fuel s = Some (a, r) ->
    (length r < length s)%nat
    /\ forall fuel', (2 * (length s - length r) <= fuel')%nat ->
                      parse fuel' s = Some (a, r).

(** ToBoolean.  For a number the lexeme is inspected: it is zero when all
    the digits of its mantissa are [0] (a lexeme that underflows to zero
    is not recognised; the one guard [truthy] feeds is false for every
    number whatever its value). *)
Fixpoint mantissaIsZero (lex : jsstring) : bool :=
  match lex with
  | [] => true
  | c :: rest =>
      if (c =? 101)%N || (c =? 69)%N then true
      else if isDigit c && negb (c =? 48)%N then false
      else mantissaIsZero rest
  end.

Definition truthy (v : json) : bool :=
  match v with
  | JNull => false
  | JBool b => b
  | JNum lex => negb (mantissaIsZero lex)
  | JStr s => match s with [] => false | _ :: _ => true end
  | JArr _ => true
  | JObj _ => true
  end.

(** The member a property access on a parsed object sees: the last one
    with that key. *)
Fixpoint lookupMember (key : jsstring) (ms : list (jsstring * json)) : option json :=
  match ms with
  | [] => None
  | (k, v) :: rest =>
      match lookupMember key rest with
      | Some v' => Some v'
      | None => if str_eqb k key then Some v else None
      end
  end.

(** [v.key] for a value produced by [JSON.parse] and a key that no
    prototype defines: [None] is [undefined]. *)
Definition getProp (v : json) (key : jsstring) : option json :=
  match v with
  | JObj ms => lookupMember key ms
  | _ => None
  end.

(** [Array.isArray] on a value that may be [undefined]. *)
Definition isArray (v : option json) : option (list json) :=
  match v with
  | Some (JArr l) => Some l
  | _ => None
  end.

End JS.

Import JS.

(** ** [src/services/geminiService.ts] *)

Module GeminiService.

Inductive ModelMode : Type := standard | pro.

(** The parts of the SDK's response the program reads. *)
Record Blob : Type := { mimeType : option jsstring; data : option jsstring }.
Record Part : Type := { inlineData : option Blob; part_text : option jsstring }.
Record Content : Type := { parts : option (list Part) }.
Record Candidate : Type := { content : option Content }.
Record GenerateContentResponse : Type :=
  { candidates : option (list Candidate); text : option jsstring }.

(** The request handed to [ai.models.generateContent]: the model, the two
    parts of [contents] and the [config]. *)
Inductive Config : Type :=
| PromptsSchema
| ImageConfig (aspectRatio : jsstring).

Record Request : Type :=
  { model : jsstring;
    image_data : jsstring;
    image_mimeType : jsstring;
    text_part : jsstring;
    config : Config }.

(** What the retry wrapper does to the outside, in order. *)
Inductive event : Type :=
| Invoke
| Warn (delay retries : Z)
| Sleep (delay : Z).

Definition isInvoke (e : event) : bool :=
  match e with Invoke => true | _ => false end.

(** The number of invocations of the operation in a trace. *)
Definition invocations (tr : list event) : nat :=
  length (filter isInvoke tr).

(** The delays waited for in a trace, in order. *)
Definition delays (tr : list event) : list Z :=
  flat_map (fun e => match e with Sleep d => [d] | _ => [] end) tr.

(** Check for 503 status or "overloaded" message. *)
Definition isOverloaded (error : thrown) : bool :=
  match thrown_status error with Some st => st =? 503 | None => false end
  || match thrown_message error with
     | Some m => includes m (js "overloaded")
     | None => false
     end
  || match thrown_message error with
     | Some m => includes m (js "503")
     | None => false
     end.

(** How a block of statements ends: by falling through, with [return], or
    with an exception. *)
Inductive completion (A : Type) : Type :=
| Normal
| Returns (a : A)
| Throws (e : thrown).
Arguments Normal {A}.
Arguments Returns {A} a.
Arguments Throws {A} e.

(** [response.text || ""]: an absent text counts as the empty one. *)
Definition orEmpty (response_text : option jsstring) : jsstring :=
  match response_text with
  | Some t => t
  | None => []
  end.

(** Steps 1 and 2 of the parsing: remove the code fence markers, trim,
    and cut out the text from the first [{] to the last [}] when there is
    one. *)
Definition stripFences (jsonText : jsstring) : jsstring :=
  trim (removeAll (js "```") (removeAll_ci (js "```json") jsonText)).

Definition extractObject (jsonText : jsstring) : jsstring :=
  let firstBrace := indexOf jsonText (js "{") in
  let lastBrace := lastIndexOf jsonText (js "}") in
  if negb (firstBrace =? -1) && negb (lastBrace =? -1) && (lastBrace >=? firstBrace)
  then substring jsonText firstBrace (lastBrace + 1)
  else jsonText.

(** [typeof p === 'string' && p.length > 10]. *)
Definition isLongString (p : json) : bool :=
  match p with
  | JStr str => 10 <? Z.of_nat (length str)
  | _ => false
  end.

(** [typeof p === 'string']. *)
Definition isString (p : json) : bool :=
  match p with
  | JStr _ => true
  | _ => false
  end.

(** The body of the [try] block (lines 120-148); [SyntaxError] is what
    [JSON.parse] throws. *)
Definition syntaxError : thrown := ErrorObject None (js "SyntaxError").

Definition parseBlock (response_text : option jsstring) : completion (list json) :=
  let jsonText := orEmpty response_text in
  let jsonText := stripFences jsonText in
  let jsonText := extractObject jsonText in
  match JSON_parse jsonText with
  | None => Throws syntaxError
  | Some result =>
      let fromObject :=
        if truthy result then
          match isArray (getProp result (js "prompts")) with
          | Some prompts =>
              let validPrompts := filter isLongString prompts in
              if 3 <=? Z.of_nat (length validPrompts)
              then Returns (slice0 3 validPrompts)
              else Normal
          | None => Normal
          end
        else Normal in
      match fromObject with
      | Normal =>
          match isArray (Some result) with
          | Some arr =>
              if 3 <=? Z.of_nat (length arr)
              then Returns (filter isString (slice0 3 arr))
              else Normal
          | None => Normal
          end
      | c => c
      end
  end.

Definition invalidInstructions : thrown :=
  newError "The AI failed to return valid rotation instructions. Please try a different image.".

Definition malformed : thrown :=
  newError "Could not get valid rotation prompts from the AI. The response was malformed.".

(** Lines 119-157: the [try] block, its [catch], and the final [throw]. *)
Definition parsePrompts (response_text : option jsstring) : outcome (list json) :=
  match parseBlock response_text with
  | Returns r => Return r
  | Throws _ => Throw invalidInstructions
  | Normal => Throw malformed
  end.

Definition promptModel (mode : ModelMode) : jsstring :=
  match mode with
  | pro => js "gemini-3-pro-preview"
  | standard => js "gemini-2.5-flash"
  end.

Definition imageModel (mode : ModelMode) : jsstring :=
  match mode with
  | pro => js "gemini-3-pro-image-preview"
  | standard => js "gemini-2.5-flash-image"
  end.

(** The suffix added to a prompt for a style other than the default; the
    two leading code units are the line feeds of the template literal. *)
Definition styleSuffix (style : jsstring) : jsstring :=
  [10%N; 10%N] ++ js "IMPORTANT: Render this image in the style of: " ++ style
  ++ js ". Maintain the subject's identity but apply this art style strongly.".

(** Modify prompt based on style (lines 176-179). *)
Definition finalPrompt (prompt style : jsstring) : jsstring :=
  if negb (str_eqb style (js "Realistic")) then prompt ++ styleSuffix style
  else prompt.

Definition imageRequest (base64Image mimeType prompt : jsstring)
    (mode : ModelMode) (style aspectRatio : jsstring) : Request :=
  {| model := imageModel mode;
     image_data := base64Image;
     image_mimeType := mimeType;
     text_part := finalPrompt prompt style;
     config := ImageConfig aspectRatio |}.

Definition hasInlineData (part : Part) : bool :=
  match inlineData part with
  | Some _ => true
  | None => false
  end.

(** [response.candidates?.[0]?.content?.parts?.find(part => part.inlineData)]. *)
Definition findImagePart (response : GenerateContentResponse) : option Part :=
  match candidates response with
  | Some (first :: _) =>
      match content first with
      | Some c =>
          match parts c with
          | Some ps => find hasInlineData ps
          | None => None
          end
      | None => None
      end
  | _ => None
  end.

Definition dataUri (blob : Blob) : jsstring :=
  js "data:" ++ template (mimeType blob) ++ js ";base64," ++ template (data blob).

Definition noImage : thrown :=
  newError "The AI did not return an image. It might not be able to process this request.".

(** Lines 197-204. *)
Definition imageOfResponse (response : GenerateContentResponse) : outcome jsstring :=
  match findImagePart response with
  | Some imagePart =>
      match inlineData imagePart with
      | Some blob => Return (dataUri blob)
      | None => Throw noImage
      end
  | None => Throw noImage
  end.

Section Service.

(** The environment of the asynchronous operations, and what waiting does
    to it. *)
Context {W : Type}.
Variable sleep : Z -> W -> W.

Record St : Type := { world : W; trace : list event }.

Definition log (e : event) (s : St) : St :=
  {| world := world s; trace := trace s ++ [e] |}.

(** [await fn()]: the operation runs on the environment and settles. *)
Definition invoke {T} (fn : W -> outcome T * W) (s : St) : outcome T * St :=
  let (r, w) := fn (world s) in
  (r, {| world := w; trace := trace s ++ [Invoke] |}).

Definition console_warn (delay retries : Z) (s : St) : St :=
  log (Warn delay retries) s.

(** [await new Promise(r => setTimeout(r, delay))]. *)
Definition setTimeout (delay : Z) (s : St) : St :=
  {| world := sleep delay (world s); trace := trace s ++ [Sleep delay] |}.

(** Helper function to retry operations on 503 errors. *)
Equations? retryWithBackoff {T} (fn : W -> outcome T * W) (retries delay : Z)
    (s : St) : outcome T * St by wf (Z.to_nat retries) lt :=
retryWithBackoff fn retries delay s with invoke fn s => {
  | (Return v, s1) => (Return v, s1);
  | (Throw error, s1) with Z_lt_dec 0 retries, isOverloaded error => {
      | left _, true =>
          retryWithBackoff fn (retries - 1) (delay * 2)
            (setTimeout delay (console_warn delay retries s1));
      | _, _ => (Throw error, s1) } }.
Proof. lia. Qed.

(** The defaults [retries = 3], [delay = 2000]. *)
Definition retryWithBackoff_default {T} (fn : W -> outcome T * W) (s : St)
    : outcome T * St :=
  retryWithBackoff fn 3 2000 s.

(** [process.env.API_KEY], the SDK call and the two instruction texts of
    [getPovPrompt] (long literals whose content plays no role below). *)
Variable API_KEY : option jsstring.
Variable generateContent : jsstring -> Request -> W -> outcome GenerateContentResponse * W.
Variable getPovPrompt : bool -> jsstring.

(** The client is represented by the key it was made with. *)
Definition getAI : outcome jsstring :=
  match API_KEY with
  | None | Some [] => Throw (newError "API_KEY environment variable is not set")
  | Some key => Return key
  end.

Definition promptsRequest (base64Image mimeType : jsstring)
    (isObjectRotationOnly : bool) (mode : ModelMode) : Request :=
  {| model := promptModel mode;
     image_data := base64Image;
     image_mimeType := mimeType;
     text_part := getPovPrompt isObjectRotationOnly;
     config := PromptsSchema |}.

Definition getRotationPrompts (base64Image mimeType : jsstring)
    (isObjectRotationOnly : bool) (mode : ModelMode) (s : St)
    : outcome (list json) * St :=
  match getAI with
  | Throw e => (Throw e, s)
  | Return ai =>
      match retryWithBackoff_default
              (generateContent ai (promptsRequest base64Image mimeType isObjectRotationOnly mode)) s with
      | (Throw e, s') => (Throw e, s')
      | (Return response, s') => (parsePrompts (text response), s')
      end
  end.

(** The two optional arguments default to ['Realistic'] and ['1:1']. *)
Definition generateRotatedImage (base64Image mimeType prompt : jsstring)
    (mode : ModelMode) (style aspectRatio : option jsstring) (s : St)
    : outcome jsstring * St :=
  let style := match style with Some x => x | None => js "Realistic" end in
  let aspectRatio := match aspectRatio with Some x => x | None => js "1:1" end in
  match getAI with
  | Throw e => (Throw e, s)
  | Return ai =>
      match retryWithBackoff_default
              (generateContent ai (imageRequest base64Image mimeType prompt mode style aspectRatio)) s with
      | (Throw e, s') => (Throw e, s')
      | (Return response, s') => (imageOfResponse response, s')
      end
  end.

End Service.

End GeminiService.

(** ** [src/unnamed/part_001]: the second copy of the service

    The retry wrapper, the [try] block of the parsing and the request
    building are the same text as in [geminiService.ts]; the [catch] of the
    parsing and the scan for the image differ. *)

Module Part001.

Import GeminiService.

(** Lines 95-132: the [catch] only logs, and control reaches the final
    [throw]. *)
Definition parsePrompts (response_text : option jsstring) : outcome (list json) :=
  match parseBlock response_text with
  | Returns r => Return r
  | Throws _ => Throw malformed
  | Normal => Throw malformed
  end.

(** The [for ... of] loop of lines 174-180. *)
Fixpoint scanParts (ps : list Part) : option jsstring :=
  match ps with
  | [] => None
  | part :: rest =>
      match inlineData part with
      | Some blob => Some (dataUri blob)
      | None => scanParts rest
      end
  end.

(** Lines 173-183. *)
Definition imageOfResponse (response : GenerateContentResponse) : outcome jsstring :=
  match candidates response with
  | Some (first :: _) =>
      match content first with
      | Some c =>
          match parts c with
          | Some ps =>
              match scanParts ps with
              | Some uri => Return uri
              | None => Throw noImage
              end
          | None => Throw noImage
          end
      | None => Throw noImage
      end
  | _ => Throw noImage
  end.

End Part001.

(** ** [src/unnamed/part_000]: the page component [App] *)

Module App.

Import GeminiService.

Record GeneratedImage : Type := { src : jsstring; prompt : jsstring }.

(** The state variables of the component that [resetState] and
    [processImage] read or write. *)
Record AppState : Type :=
  { modelMode : ModelMode;
    hasApiKey : bool;
    originalImage : option jsstring;
    generatedImages : list GeneratedImage;
    isObjectRotationOnly : bool;
    selectedStyle : jsstring;
    selectedRatio : jsstring;
    isLoading : bool;
    status : jsstring;
    error : jsstring }.

Definition setHasApiKey (v : bool) (st : AppState) : AppState :=
  {| modelMode := modelMode st; hasApiKey := v;
     originalImage := originalImage st; generatedImages := generatedImages st;
     isObjectRotationOnly := isObjectRotationOnly st;
     selectedStyle := selectedStyle st; selectedRatio := selectedRatio st;
     isLoading := isLoading st; status := status st; error := error st |}.

Definition setOriginalImage (v : option jsstring) (st : AppState) : AppState :=
  {| modelMode := modelMode st; hasApiKey := hasApiKey st;
     originalImage := v; generatedImages := generatedImages st;
     isObjectRotationOnly := isObjectRotationOnly st;
     selectedStyle := selectedStyle st; selectedRatio := selectedRatio st;
     isLoading := isLoading st; status := status st; error := error st |}.

Definition setGeneratedImages (v : list GeneratedImage) (st : AppState) : AppState :=
  {| modelMode := modelMode st; hasApiKey := hasApiKey st;
     originalImage := originalImage st; generatedImages := v;
     isObjectRotationOnly := isObjectRotationOnly st;
     selectedStyle := selectedStyle st; selectedRatio := selectedRatio st;
     isLoading := isLoading st; status := status st; error := error st |}.

Definition setIsLoading (v : bool) (st : AppState) : AppState :=
  {| modelMode := modelMode st; hasApiKey := hasApiKey st;
     originalImage := originalImage st; generatedImages := generatedImages st;
     isObjectRotationOnly := isObjectRotationOnly st;
     selectedStyle := selectedStyle st; selectedRatio := selectedRatio st;
     isLoading := v; status := status st; error := error st |}.

Definition setStatus (v : jsstring) (st : AppState) : AppState :=
  {| modelMode := modelMode st; hasApiKey := hasApiKey st;
     originalImage := originalImage st; generatedImages := generatedImages st;
     isObjectRotationOnly := isObjectRotationOnly st;
     selectedStyle := selectedStyle st; selectedRatio := selectedRatio st;
     isLoading := isLoading st; status := v; error := error st |}.

Definition setError (v : jsstring) (st : AppState) : AppState :=
  {| modelMode := modelMode st; hasApiKey := hasApiKey st;
     originalImage := originalImage st; generatedImages := generatedImages st;
     isObjectRotationOnly := isObjectRotationOnly st;
     selectedStyle := selectedStyle st; selectedRatio := selectedRatio st;
     isLoading := isLoading st; status := status st; error := v |}.

(** Lines 70-76. *)
Definition resetState (st : AppState) : AppState :=
  setError [] (setStatus [] (setIsLoading false
    (setGeneratedImages [] (setOriginalImage None st)))).

Section Page.

(** The two operations of the generation client, as the page sees them:
    asynchronous operations on some environment [W]. *)
Context {W : Type}.
Variable getRotationPrompts :
  jsstring -> jsstring -> bool -> ModelMode -> W -> outcome (list jsstring) * W.
Variable generateRotatedImage :
  jsstring -> jsstring -> jsstring -> ModelMode -> jsstring -> jsstring ->
  W -> outcome jsstring * W.

(** [`Generating view ${i + 1} of 3...`], for the one-digit numbers the
    loop produces. *)
Definition viewStatus (i : nat) : jsstring :=
  js "Generating view " ++ [N.of_nat (49 + i)] ++ js " of 3...".

(** The loop of lines 116-129, [todo] iterations from index [i].  The
    index is below the length of [prompts] (line 111), so the default of
    [nth] is never used. *)
Fixpoint renderViews (todo i : nat) (base64Image mimeType : jsstring)
    (prompts : list jsstring) (mode : ModelMode) (style ratio : jsstring)
    (newImages : list GeneratedImage) (st : AppState) (w : W)
    : outcome unit * AppState * W :=
  match todo with
  | O => (Return tt, st, w)
  | S todo' =>
      let st := setStatus (viewStatus i) st in
      match generateRotatedImage base64Image mimeType (nth i prompts [])
              mode style ratio w with
      | (Throw e, w') => (Throw e, st, w')
      | (Return generatedImage, w') =>
          let newImages :=
            newImages ++ [{| src := generatedImage; prompt := nth i prompts [] |}] in
          let st := setGeneratedImages newImages st in
          renderViews todo' (S i) base64Image mimeType prompts mode style ratio
            newImages st w'
      end
  end.

(** The [try] block of [processImage] (lines 102-130).  The values of
    [modelMode], [isObjectRotationOnly], [selectedStyle] and
    [selectedRatio] are those of the render that created the closure:
    [st0].  The test [!prompts] of line 111 is false for every array. *)
Definition processBody (base64Image mimeType : jsstring) (st0 : AppState) (w : W)
    : outcome unit * AppState * W :=
  let st := setError [] st0 in
  let st := setStatus (js "Analyzing scene geometry...") st in
  match getRotationPrompts base64Image mimeType (isObjectRotationOnly st0)
          (modelMode st0) w with
  | (Throw e, w') => (Throw e, st, w')
  | (Return prompts, w') =>
      if (length prompts <? 3)%nat then
        (Throw (newError "Could not determine rotation angles. Please try another image."),
         st, w')
      else
        match renderViews 3 0 base64Image mimeType prompts (modelMode st0)
                (selectedStyle st0) (selectedRatio st0) [] st w' with
        | (Throw e, st', w'') => (Throw e, st', w'')
        | (Return _, st', w'') => (Return tt, setStatus (js "Complete") st', w'')
        end
  end.

(** The [catch] block (lines 131-143). *)
Definition handleFailure (err : thrown) (mode : ModelMode) (st : AppState) : AppState :=
  let st :=
    match err with
    | ErrorObject _ message =>
        if includes message (js "RESOURCE_EXHAUSTED") || includes message (js "429")
        then setError (js "Quota exhausted. The free tier may have been used up.") st
        else if includes message (js "503") || includes message (js "overloaded")
        then setError (js "The AI model is currently overloaded. Please try again shortly.") st
        else if includes message (js "Requested entity was not found")
        then
          let st := setError (js "API Key Error. Please re-select your key.") st in
          match mode with
          | pro => setHasApiKey false st
          | standard => st
          end
        else setError message st
    | OtherValue _ _ => setError (js "Processing failed.") st
    end in
  setStatus (js "Failed") st.

(** Lines 100-147. *)
Definition processImage (base64Image mimeType : jsstring) (st0 : AppState) (w : W)
    : AppState * W :=
  match processBody base64Image mimeType st0 w with
  | (Return _, st, w') => (setIsLoading false st, w')
  | (Throw err, st, w') =>
      (setIsLoading false (handleFailure err (modelMode st0) st), w')
  end.

End Page.

End App.

(** ** Vocabulary of the statements *)

Module Scenario.

Import GeminiService.

(** An operation given by the outcome of each of its invocations in turn.
    Its environment is the number of invocations made so far, and waiting
    does not change it. *)
Definition scripted {T} (behaviour : nat -> outcome T) : nat -> outcome T * nat :=
  fun n => (behaviour n, S n).

Definition noSleep : Z -> nat -> nat := fun _ n => n.

Definition fresh : @St nat := {| world := 0%nat; trace := [] |}.

(** What the wrapper does around [n] failed attempts followed by a last
    attempt. *)
Fixpoint backoffTrace (n : nat) (retries delay : Z) : list event :=
  match n with
  | O => [Invoke]
  | S n' =>
      Invoke :: Warn delay retries :: Sleep delay
      :: backoffTrace n' (retries - 1) (delay * 2)
  end.

(** The delays before retries 1 to [n], starting at [base]:
    [base * 2^(k-1)] before the k-th. *)
Definition doubling (base : Z) (n : nat) : list Z :=
  map (fun k => base * 2 ^ Z.of_nat k) (seq 0 n).

(** The failure is a transient-overload signal, in the words of the
    specification. *)
Definition overloadSignal (e : thrown) : Prop :=
  thrown_status e = Some 503
  \/ exists m, thrown_message e = Some m
       /\ (includes m (js "overloaded") = true \/ includes m (js "503") = true).

(** An operation that fails [n] times with [e] and succeeds with [v]
    from then on. *)
Definition failing {T} (n : nat) (e : thrown) (v : T) : nat -> outcome T :=
  fun i => if (i <? n)%nat then Throw e else Return v.

Definition unavailable : thrown := ErrorObject (Some 503) (js "Service Unavailable").

Definition quotaExceeded : thrown :=
  ErrorObject (Some 429) (js "RESOURCE_EXHAUSTED: quota exceeded").

(** A page that has just read an upload, and two generation clients on
    the environment "number of calls made so far": one that always
    succeeds, and one whose [n]-th call (counting the prompt derivation) is
    rejected. *)
Definition uploaded : App.AppState :=
  {| App.modelMode := standard; App.hasApiKey := true;
     App.originalImage := Some (js "data:image/png;base64,iVBORw0KGgo=");
     App.generatedImages := []; App.isObjectRotationOnly := false;
     App.selectedStyle := js "Realistic"; App.selectedRatio := js "1:1";
     App.isLoading := true; App.status := js "Reading image...";
     App.error := [] |}.

Definition threePrompts
    : jsstring -> jsstring -> bool -> ModelMode -> nat -> outcome (list jsstring) * nat :=
  fun _ _ _ _ calls => (Return [js "front"; js "side"; js "top"], S calls).

Definition rendering (n : nat)
    : jsstring -> jsstring -> jsstring -> ModelMode -> jsstring -> jsstring ->
      nat -> outcome jsstring * nat :=
  fun _ _ p _ _ _ calls =>
    (if (calls =? n)%nat then Throw unavailable else Return (js "data:image/png;base64," ++ p),
     S calls).

(** A response that carries only a text. *)
Definition textResponse (answer : jsstring) : GenerateContentResponse :=
  {| candidates := None; text := Some answer |}.

(** A response whose first candidate has the given parts. *)
Definition partsResponse (ps : list Part) : GenerateContentResponse :=
  {| candidates := Some [ {| content := Some {| parts := Some ps |} |} ];
     text := None |}.

(** The environment of the examples: the model answers every request at
    once with the same response. *)
Definition answering (response : GenerateContentResponse)
    : jsstring -> Request -> unit -> outcome GenerateContentResponse * unit :=
  fun _ _ w => (Return response, w).

(** The environment extended with the record of the requests handed to
    the model, in order of submission: the model call behaves as it does
    on the plain environment and its request is added to the record;
    waiting leaves the record alone. *)
Definition recording {W : Type}
    (generateContent : jsstring -> Request -> W -> outcome GenerateContentResponse * W)
    : jsstring -> Request -> W * list Request
      -> outcome GenerateContentResponse * (W * list Request) :=
  fun key request e =>
    let (r, w) := generateContent key request (fst e) in
    (r, (w, snd e ++ [request])).

Definition recordingSleep {W : Type} (sleep : Z -> W -> W)
    : Z -> W * list Request -> W * list Request :=
  fun delay e => (sleep delay (fst e), snd e).

(** The state [s] with an empty record, and the record of a state. *)
Definition startRecording {W : Type} (s : @St W) : @St (W * list Request) :=
  {| world := (world s, []); trace := trace s |}.

Definition submitted {W : Type} (s : @St (W * list Request)) : list Request :=
  snd (world s).

(** [blob] is the inline data of the first part of the first candidate's
    content that carries inline data. *)
Definition firstInlineData (response : GenerateContentResponse) (blob : Blob) : Prop :=
  exists first others c before part after,
    candidates response = Some (first :: others)
    /\ content first = Some c
    /\ parts c = Some (before ++ part :: after)
    /\ Forall (fun q => inlineData q = None) before
    /\ inlineData part = Some blob.

(** The acceptance condition in the words of the specification: after
    the fence markers are stripped, the substring between the first [{]
    and the last [}] parses as JSON whose [prompts] field is an array with
    at least 3 non-empty string entries; the result is the first 3 of
    them. *)
Definition isNonEmptyString (p : json) : bool :=
  match p with
  | JStr (_ :: _) => true
  | _ => false
  end.

Definition bracedText (t : jsstring) : option jsstring :=
  let firstBrace := indexOf t (js "{") in
  let lastBrace := lastIndexOf t (js "}") in
  if (firstBrace =? -1) || (lastBrace =? -1) || (lastBrace <? firstBrace) then None
  else Some (substring t firstBrace (lastBrace + 1)).

Definition documentedPrompts (text : jsstring) : option (list json) :=
  match bracedText (stripFences text) with
  | None => None
  | Some t =>
      match JSON_parse t with
      | None => None
      | Some v =>
          match isArray (getProp v (js "prompts")) with
          | None => None
          | Some entries =>
              let good := filter isNonEmptyString entries in
              if (3 <=? length good)%nat then Some (firstn 3 good) else None
          end
      end
  end.

(** The parsing stage as the specification describes it. *)
Definition documentedParse (text : jsstring) : outcome (list json) :=
  match documentedPrompts text with
  | Some ps => Return ps
  | None => Throw malformed
  end.

End Scenario.

(** ** More of the runtime: [split], number printing, [%] *)

Module Runtime.

(** [s.split(sep)] for a separator of one code unit. *)
Fixpoint split (s : jsstring) (sep : N) : list jsstring :=
  match s with
  | [] => [[]]
  | c :: s' =>
      if (c =? sep)%N then [] :: split s' sep
      else match split s' sep with
           | piece :: pieces => (c :: piece) :: pieces
           | [] => [[c]]
           end
  end.

(** The decimal digits of a natural number, most significant first, in
    front of [acc]; [fuel] bounds the number of digits. *)
Fixpoint showDigits (fuel n : nat) (acc : jsstring) : jsstring :=
  match fuel with
  | O => acc
  | S fuel' =>
      let acc' := N.of_nat (48 + n mod 10) :: acc in
      if (n <? 10)%nat then acc' else showDigits fuel' (n / 10) acc'
  end.

(** How a template literal prints a non-negative integer. *)
Definition showNat (n : nat) : jsstring := showDigits (S n) n [].

(** [a % b] on integers: the remainder has the sign of [a]; [None] is the
    [NaN] of a zero divisor. *)
Definition jsRem (a b : Z) : option Z :=
  if b =? 0 then None else Some (Z.rem a b).

End Runtime.

(** ** [Lightbox] (second component of [src/components/GridCell.tsx]) *)

Module Lightbox.

Import Runtime.

Record LightboxImage : Type :=
  { src : jsstring; label : jsstring; prompt : option jsstring }.

(** [currentIndex] is a JavaScript number: an integer, or [NaN] ([None]). *)
Definition index : Type := option Z.

(** [(prev + 1) % images.length] (line 120). *)
Definition handleNext (images : list LightboxImage) (prev : index) : index :=
  match prev with
  | Some i => jsRem (i + 1) (Z.of_nat (length images))
  | None => None
  end.

(** [(prev - 1 + images.length) % images.length] (line 124). *)
Definition handlePrev (images : list LightboxImage) (prev : index) : index :=
  match prev with
  | Some i => jsRem (i - 1 + Z.of_nat (length images)) (Z.of_nat (length images))
  | None => None
  end.

(** [images[currentIndex]]: [None] is [undefined], on which the render of
    the component throws. *)
Definition currentImage (images : list LightboxImage) (currentIndex : index)
    : option LightboxImage :=
  match currentIndex with
  | Some i => if i <? 0 then None else nth_error images (Z.to_nat i)
  | None => None
  end.

Inductive key : Type := Escape | ArrowRight | ArrowLeft | OtherKey.

(** The component while it is mounted: its index, and whether [onClose]
    was called. *)
Record View : Type := { currentIndex : index; closed : bool }.

(** [handleKeyDown] (lines 127-131). *)
Definition handleKeyDown (images : list LightboxImage) (e : key) (v : View) : View :=
  match e with
  | Escape => {| currentIndex := currentIndex v; closed := true |}
  | ArrowRight =>
      {| currentIndex := handleNext images (currentIndex v); closed := closed v |}
  | ArrowLeft =>
      {| currentIndex := handlePrev images (currentIndex v); closed := closed v |}
  | OtherKey => v
  end.

(** Mounting with [initialIndex] (line 111). *)
Definition mount (initialIndex : Z) : View :=
  {| currentIndex := Some initialIndex; closed := false |}.

(** [handleCopyPrompt] (lines 159-166): what is written to the clipboard,
    if anything. *)
Definition handleCopyPrompt (images : list LightboxImage) (currentIndex : index)
    : option jsstring :=
  match currentImage images currentIndex with
  | Some img =>
      match prompt img with
      | Some (c :: p) => Some (c :: p)
      | _ => None
      end
  | None => None
  end.

End Lightbox.

(** ** The rest of the page component ([src/unnamed/part_000]) *)

Module Page.

Import GeminiService App Runtime.

Definition setModelMode (v : ModelMode) (st : AppState) : AppState :=
  {| modelMode := v; hasApiKey := hasApiKey st;
     originalImage := originalImage st; generatedImages := generatedImages st;
     isObjectRotationOnly := isObjectRotationOnly st;
     selectedStyle := selectedStyle st; selectedRatio := selectedRatio st;
     isLoading := isLoading st; status := status st; error := error st |}.

Definition setIsObjectRotationOnly (v : bool) (st : AppState) : AppState :=
  {| modelMode := modelMode st; hasApiKey := hasApiKey st;
     originalImage := originalImage st; generatedImages := generatedImages st;
     isObjectRotationOnly := v;
     selectedStyle := selectedStyle st; selectedRatio := selectedRatio st;
     isLoading := isLoading st; status := status st; error := error st |}.

Definition setSelectedStyle (v : jsstring) (st : AppState) : AppState :=
  {| modelMode := modelMode st; hasApiKey := hasApiKey st;
     originalImage := originalImage st; generatedImages := generatedImages st;
     isObjectRotationOnly := isObjectRotationOnly st;
     selectedStyle := v; selectedRatio := selectedRatio st;
     isLoading := isLoading st; status := status st; error := error st |}.

Definition setSelectedRatio (v : jsstring) (st : AppState) : AppState :=
  {| modelMode := modelMode st; hasApiKey := hasApiKey st;
     originalImage := originalImage st; generatedImages := generatedImages st;
     isObjectRotationOnly := isObjectRotationOnly st;
     selectedStyle := selectedStyle st; selectedRatio := v;
     isLoading := isLoading st; status := status st; error := error st |}.

(** The state of the first render (the [useState] defaults, lines 23-40). *)
Definition mounted : AppState :=
  {| modelMode := standard; hasApiKey := false;
     originalImage := None; generatedImages := [];
     isObjectRotationOnly := false;
     selectedStyle := js "Realistic"; selectedRatio := js "1:1";
     isLoading := false; status := []; error := [] |}.

(** [checkApiKey] (lines 46-55): [studio] is what
    [window.aistudio.hasSelectedApiKey()] answers, when it exists. *)
Definition checkApiKey (studio : option bool) (st : AppState) : AppState :=
  match studio with
  | Some hasKey => setHasApiKey hasKey st
  | None => setHasApiKey true st
  end.

(** [handleSelectKey] (lines 57-68). *)
Inductive keySelection : Type := NoStudio | KeySelected | KeySelectionFailed.

Definition handleSelectKey (selection : keySelection) (st : AppState) : AppState :=
  match selection with
  | NoStudio => st
  | KeySelected => setHasApiKey true st
  | KeySelectionFailed => setError (js "Failed to select API key. Please try again.") st
  end.

(** [!originalImage]: [null] and the empty string are falsy. *)
Definition noOriginal (st : AppState) : bool :=
  match originalImage st with
  | Some (_ :: _) => false
  | _ => true
  end.

(** The state variables a run never writes. *)
Definition sameSettings (a b : AppState) : Prop :=
  originalImage a = originalImage b
  /\ modelMode a = modelMode b
  /\ isObjectRotationOnly a = isObjectRotationOnly b
  /\ selectedStyle a = selectedStyle b
  /\ selectedRatio a = selectedRatio b.

(** Lines 208-209. *)
Definition isFinished (st : AppState) : bool :=
  negb (isLoading st) && (length (generatedImages st) =? 3)%nat.

Definition isProModeLocked (st : AppState) : bool :=
  match modelMode st with
  | pro => negb (hasApiKey st)
  | standard => false
  end.

(** What the render offers (lines 272, 325-334, 424-431): the file input
    is there when the page is not locked and has no original image, and it
    is enabled when the page is not loading; the Reset and download buttons
    are there when the page is not locked and the run is finished. *)
Definition uploadEnabled (st : AppState) : bool :=
  negb (isProModeLocked st) && noOriginal st && negb (isLoading st).

Definition resetOffered (st : AppState) : bool :=
  negb (isProModeLocked st) && isFinished st.

(** [lightboxImages] (lines 177-186). *)
Fixpoint views (idx : nat) (imgs : list GeneratedImage) : list Lightbox.LightboxImage :=
  match imgs with
  | [] => []
  | img :: rest =>
      {| Lightbox.src := src img;
         Lightbox.label := js "View " ++ showNat (idx + 1);
         Lightbox.prompt := Some (prompt img) |} :: views (S idx) rest
  end.

Definition lightboxImages (st : AppState) : list Lightbox.LightboxImage :=
  (match originalImage st with
   | Some (c :: o) =>
       [ {| Lightbox.src := c :: o; Lightbox.label := js "Original Input";
            Lightbox.prompt := None |} ]
   | _ => []
   end) ++ views 0 (generatedImages st).

(** [handleCellClick] (lines 188-194): the new value of [lightboxIndex]. *)
Definition handleCellClick (index : Z) (st : AppState) (lightboxIndex : option Z)
    : option Z :=
  if noOriginal st && (index =? 0) then lightboxIndex else Some index.

(** The [onClick] of the grid cells (lines 323 and 348): cell 0 is the
    original, cell [idx + 1] the view [idx]; [None] is [undefined]. *)
Definition cellClick (cell : nat) (st : AppState) : option Z :=
  match cell with
  | O => if noOriginal st then None else Some 0
  | S idx =>
      match nth_error (generatedImages st) idx with
      | Some _ => Some (Z.of_nat idx + 1)
      | None => None
      end
  end.

(** [handleDownloadZip] (lines 149-174).  [fetchBlob] is
    [fetch(src).then(r => r.blob())] and [generateAsync] the packing of the
    archive; both may reject ([None]).  An archive under construction is
    the list of its files. *)
Section Download.

Context {B C : Type}.
Variable fetchBlob : jsstring -> option B.
Variable generateAsync : list (jsstring * B) -> option C.

Record Download : Type := { href : C; download : jsstring }.

(** [zip.file(name, data)]: a file of that name is replaced, a new name is
    added at the end. *)
Fixpoint zipFile (name : jsstring) (data : B) (zip : list (jsstring * B))
    : list (jsstring * B) :=
  match zip with
  | [] => [(name, data)]
  | (n, d) :: rest =>
      if str_eqb n name then (name, data) :: rest
      else (n, d) :: zipFile name data rest
  end.

(** The loop of lines 158-161, from index [i]. *)
Fixpoint zipGenerated (i : nat) (imgs : list GeneratedImage)
    (zip : list (jsstring * B)) : option (list (jsstring * B)) :=
  match imgs with
  | [] => Some zip
  | img :: rest =>
      match fetchBlob (src img) with
      | None => None
      | Some generatedBlob =>
          zipGenerated (S i) rest
            (zipFile (js "generated_" ++ showNat (i + 1) ++ js ".png") generatedBlob zip)
      end
  end.

Definition handleDownloadZip (st : AppState) : AppState * option Download :=
  match originalImage st with
  | Some (c :: o) =>
      if (length (generatedImages st) <? 3)%nat then (st, None)
      else
        let st := setStatus (js "Zipping...") st in
        let content :=
          match fetchBlob (c :: o) with
          | None => None
          | Some originalBlob =>
              match zipGenerated 0 (generatedImages st)
                      (zipFile (js "original.png") originalBlob []) with
              | None => None
              | Some zip => generateAsync zip
              end
          end in
        match content with
        | Some archive =>
            (setStatus (js "Saved") st,
             Some {| href := archive; download := js "rotated-views.zip" |})
        | None => (setError (js "Failed to create ZIP.") st, None)
        end
  | _ => (st, None)
  end.

End Download.

Section Handlers.

Context {W B C : Type}.
Variable getRotationPrompts :
  jsstring -> jsstring -> bool -> ModelMode -> W -> outcome (list jsstring) * W.
Variable generateRotatedImage :
  jsstring -> jsstring -> jsstring -> ModelMode -> jsstring -> jsstring ->
  W -> outcome jsstring * W.
Variable fetchBlob : jsstring -> option B.
Variable generateAsync : list (jsstring * B) -> option C.

(** How the [FileReader] ends: with its [result], or with an error. *)
Inductive readResult : Type :=
| Loaded (result : jsstring)
| ReadFailed.

(** [handleImageUpload] (lines 78-98), with the reader's handler run when
    the read ends.  [file] is the [type] of the chosen file, if any.  After
    a failed read [onloadend] runs too, but [reader.result] is [null] and
    the handler throws before it touches the state.  The setters that run
    before [processImage] leave the four values its closure reads as they
    were.  The result is [None] when [split(',')[1]] is [undefined]: the
    reader's result has no comma, which a data URL always has. *)
Definition handleImageUpload (file : option jsstring) (read : readResult)
    (st : AppState) (w : W) : option (AppState * W) :=
  match file with
  | None => Some (st, w)
  | Some fileType =>
      let st := resetState st in
      let st := setIsLoading true st in
      let st := setStatus (js "Reading image...") st in
      match read with
      | ReadFailed =>
          let st := setError (js "Failed to read the image file.") st in
          let st := setIsLoading false st in
          Some (setStatus [] st, w)
      | Loaded result =>
          match nth_error (split result 44) 1 with
          | None => None
          | Some base64Image =>
              let st :=
                setOriginalImage
                  (Some (js "data:" ++ fileType ++ js ";base64," ++ base64Image)) st in
              Some (processImage getRotationPrompts generateRotatedImage
                      base64Image fileType st w)
          end
      end
  end.

(** What the user can make the page do between two runs. *)
Inductive event : Type :=
| Upload (fileType : jsstring) (read : readResult)
| Reset
| SelectMode (mode : ModelMode)
| ToggleObject (checked : bool)
| SelectStyle (style : jsstring)
| SelectRatio (ratio : jsstring)
| SelectKey (selection : keySelection)
| DownloadZip.

(** The handler of each event, run to its end.  The guards of the render
    (a disabled input, a button that is not shown) are not applied: every
    handler may run in every state. *)
Definition handle (e : event) (st : AppState) (w : W) : option (AppState * W) :=
  match e with
  | Upload fileType read => handleImageUpload (Some fileType) read st w
  | Reset => Some (resetState st, w)
  | SelectMode mode => Some (setModelMode mode st, w)
  | ToggleObject checked => Some (setIsObjectRotationOnly checked st, w)
  | SelectStyle style => Some (setSelectedStyle style st, w)
  | SelectRatio ratio => Some (setSelectedRatio ratio st, w)
  | SelectKey selection => Some (handleSelectKey selection st, w)
  | DownloadZip => Some (fst (handleDownloadZip fetchBlob generateAsync st), w)
  end.

(** What the render lets the user do in a state: the mode buttons are
    always there (lines 232-254); the key button is on the lock screen
    (lines 272-299); the file input, the framing toggle and the two
    selects need a page without original image that is not loading (lines
    325-334, 363-379, 385-406); Reset and the download need a finished run
    (lines 424-439). *)
Definition offered (e : event) (st : AppState) : bool :=
  match e with
  | Upload _ _ => uploadEnabled st
  | Reset => resetOffered st
  | DownloadZip => resetOffered st
  | SelectMode _ => true
  | ToggleObject _ => uploadEnabled st
  | SelectStyle _ => uploadEnabled st
  | SelectRatio _ => uploadEnabled st
  | SelectKey _ => isProModeLocked st
  end.

(** A sequence of events, each offered in the state it is played in. *)
Fixpoint play (es : list event) (st : AppState) (w : W) : option (AppState * W) :=
  match es with
  | [] => Some (st, w)
  | e :: es' =>
      if offered e st then
        match handle e st w with
        | Some (st1, w1) => play es' st1 w1
        | None => None
        end
      else None
  end.

(** What holds of the page between two runs. *)
Definition settled (st : AppState) : Prop :=
  (length (generatedImages st) <= 3)%nat
  /\ (generatedImages st <> [] -> noOriginal st = false)
  /\ isLoading st = false
  /\ (status st = js "Complete" -> length (generatedImages st) = 3%nat).

(** The states the page can be in between two runs. *)
Inductive reachable : AppState -> W -> Prop :=
| reach_mounted (studio : option bool) (w : W) :
    reachable (checkApiKey studio mounted) w
| reach_step (e : event) (st st' : AppState) (w w' : W) :
    reachable st w -> handle e st w = Some (st', w') -> reachable st' w'.

End Handlers.

End Page.

(** ** Concrete pages and clients for the statements *)

Module Samples.

Import GeminiService App Page Scenario.

(** A client whose prompt derivation returns two prompts only. *)
Definition twoPrompts
    : jsstring -> jsstring -> bool -> ModelMode -> nat -> outcome (list jsstring) * nat :=
  fun _ _ _ _ calls => (Return [js "front"; js "side"], S calls).

(** No blob can be fetched, nothing can be packed. *)
Definition noFetch : jsstring -> option unit := fun _ => None.
Definition noArchive : list (jsstring * unit) -> option unit := fun _ => None.

Definition pngUrl : jsstring := js "data:image/png;base64,iVBORw0KGgo=".

(** Every URL can be fetched (the blob is the URL itself) and the archive
    is the list of its file names. *)
Definition fetchUrl : jsstring -> option jsstring := fun url => Some url.
Definition packNames : list (jsstring * jsstring) -> option (list jsstring) :=
  fun zip => Some (map fst zip).

(** The page after the upload of a PNG file, with a client that succeeds
    and with a client whose second render call fails. *)
Definition afterUpload (n : nat) : AppState * nat :=
  match handleImageUpload threePrompts (rendering n) (Some (js "image/png"))
          (Loaded pngUrl) (checkApiKey None mounted) 0%nat with
  | Some page => page
  | None => (mounted, 0%nat)
  end.

Definition fourImages : list Lightbox.LightboxImage :=
  lightboxImages (fst (afterUpload 9)).

End Samples.

(** ** The fuel of the JSON parser *)

Section JsonFuel.

Lemma skipWs_length (s : jsstring) : (length (skipWs s) <= length s)%nat.
Proof.
  induction s as [| c s IH]; cbn; [lia |].
  destruct (isJsonWs c); cbn; lia.
Qed.

Lemma expect_length (c : N) (s r : jsstring) :
  expect c s = Some r -> (length r < length s)%nat.
Proof.
  unfold expect. pose proof (skipWs_length s) as Hws.
  destruct (skipWs s) as [| d t]; [discriminate |].
  destruct (d =? c)%N; [| discriminate].
  intros H. injection H as <-. cbn in Hws. lia.
Qed.

Lemma parseChars_length_le (n : nat) :
  forall s str r,
    (length s <= n)%nat -> parseChars s = Some (str, r) -> (length r < length s)%nat.
Proof.
  induction n as [| n IH]; intros s str r Hn;
    destruct s as [| c rest]; cbn [parseChars]; try discriminate;
    cbn [length] in Hn; [lia |].
  assert (Hrec : forall t str' r',
             (length t <= length rest)%nat -> parseChars t = Some (str', r') ->
             (length r' < S (length rest))%nat).
  { intros t str' r' Ht Hp. apply IH in Hp; lia. }
  destruct (c =? 34)%N.
  { intros H. injection H as _ <-. cbn. lia. }
  destruct (c =? 92)%N.
  { destruct rest as [| e rest1]; [discriminate |].
    destruct (e =? 117)%N.
    - destruct rest1 as [| h1 [| h2 [| h3 [| h4 rest2]]]]; try discriminate.
      destruct (hex4 h1 h2 h3 h4); [| discriminate].
      destruct (parseChars rest2) as [[str' r'] |] eqn:Hp; [| discriminate].
      intros H. injection H as _ <-. apply Hrec in Hp; cbn in *; lia.
    - destruct (unescape e); [| discriminate].
      destruct (parseChars rest1) as [[str' r'] |] eqn:Hp; [| discriminate].
      intros H. injection H as _ <-. apply Hrec in Hp; cbn in *; lia. }
  destruct (c <? 32)%N; [discriminate |].
  destruct (parseChars rest) as [[str' r'] |] eqn:Hp; [| discriminate].
  intros H. injection H as _ <-. apply Hrec in Hp; cbn in *; lia.
Qed.

Lemma parseChars_length (s str r : jsstring) :
  parseChars s = Some (str, r) -> (length r < length s)%nat.
Proof.
  apply (parseChars_length_le (length s)). lia.
Qed.

Lemma spanDigits_length (s : jsstring) :
  forall ds r, spanDigits s = (ds, r) -> (length ds + length r = length s)%nat.
Proof.
  induction s as [| c s IH]; cbn; intros ds r H.
  - injection H as <- <-. reflexivity.
  - destruct (isDigit c).
    + destruct (spanDigits s) as [ds' r'] eqn:Hs. injection H as <- <-.
      specialize (IH ds' r' eq_refl). cbn. lia.
    + injection H as <- <-. cbn. lia.
Qed.

Lemma digits1_length (s ds r : jsstring) :
  digits1 s = Some (ds, r) -> (length r < length s)%nat.
Proof.
  unfold digits1. destruct (spanDigits s) as [[| d ds'] r'] eqn:Hs; [discriminate |].
  intros H. injection H as <- <-. apply spanDigits_length in Hs. cbn in Hs. lia.
Qed.

Lemma parseNumber_length (s lex r : jsstring) :
  parseNumber s = Some (lex, r) -> (length r < length s)%nat.
Proof.
  unfold parseNumber.
  destruct (optSign s) as [sign s1] eqn:Hsign.
  assert (H1 : (length s1 <= length s)%nat).
  { unfold optSign in Hsign. destruct s as [| c t]; [injection Hsign as <- <-; lia |].
    destruct (c =? 45)%N; injection Hsign as <- <-; cbn; lia. }
  destruct (intPart s1) as [[ip s2] |] eqn:Hint; [| discriminate].
  assert (H2 : (length s2 < length s1)%nat).
  { unfold intPart in Hint. destruct s1 as [| c t]; [discriminate |].
    destruct (c =? 48)%N; [injection Hint as <- <-; cbn; lia |].
    apply digits1_length in Hint. exact Hint. }
  destruct (fracPart s2) as [[fp s3] |] eqn:Hfrac; [| discriminate].
  assert (H3 : (length s3 <= length s2)%nat).
  { unfold fracPart in Hfrac. destruct s2 as [| c t]; [injection Hfrac as <- <-; lia |].
    destruct (c =? 46)%N; [| injection Hfrac as <- <-; lia].
    destruct (digits1 t) as [[ds r'] |] eqn:Hd; [| discriminate].
    injection Hfrac as <- <-. apply digits1_length in Hd. cbn. lia. }
  destruct (expPart s3) as [[ep s4] |] eqn:Hexp; [| discriminate].
  assert (H4 : (length s4 <= length s3)%nat).
  { unfold expPart in Hexp. destruct s3 as [| e t]; [injection Hexp as <- <-; lia |].
    destruct ((e =? 101)%N || (e =? 69)%N); [| injection Hexp as <- <-; lia].
    destruct (match t with
              | [] => ([], t)
              | g :: r' => if (g =? 43)%N || (g =? 45)%N then ([g], r') else ([], t)
              end) as [sg r1] eqn:Hsg.
    assert (length r1 <= length t)%nat.
    { destruct t as [| g r']; [injection Hsg as <- <-; lia |].
      destruct ((g =? 43)%N || (g =? 45)%N); injection Hsg as <- <-; cbn; lia. }
    destruct (digits1 r1) as [[ds r2] |] eqn:Hd; [| discriminate].
    injection Hexp as <- <-. apply digits1_length in Hd. cbn. lia. }
  intros H. injection H as <- <-. lia.
Qed.

Lemma startsWith_length (s p : jsstring) :
  startsWith s p = true -> (length p <= length s)%nat.
Proof.
  revert s. induction p as [| a p IH]; intros s; cbn; [lia |].
  destruct s as [| c s]; [discriminate |].
  intros H. apply andb_true_iff in H. destruct H as [_ H].
  apply IH in H. cbn. lia.
Qed.

Lemma parseLiteral_length (t : jsstring) (v : json) (r : jsstring) :
  parseLiteral t = Some (v, r) -> (length r < length t)%nat.
Proof.
  unfold parseLiteral.
  destruct (startsWith t (js "true")) eqn:Ht.
  { intros H. assert (Hr : r = skipn 4 t) by congruence. subst r.
    apply startsWith_length in Ht. rewrite length_skipn. cbn in Ht. lia. }
  destruct (startsWith t (js "false")) eqn:Hf.
  { intros H. assert (Hr : r = skipn 5 t) by congruence. subst r.
    apply startsWith_length in Hf. rewrite length_skipn. cbn in Hf. lia. }
  destruct (startsWith t (js "null")) eqn:Hn.
  { intros H. assert (Hr : r = skipn 4 t) by congruence. subst r.
    apply startsWith_length in Hn. rewrite length_skipn. cbn in Hn. lia. }
  destruct (parseNumber t) as [[lex r'] |] eqn:Hnum; [| discriminate].
  intros H. injection H as <- <-. apply parseNumber_length in Hnum. exact Hnum.
Qed.

Lemma parseValue_S (fuel : nat) (s : jsstring) :
  parseValue (S fuel) s =
  match expect 123 s, expect 91 s, expect 34 s with
  | Some r, _, _ =>
      match expect 125 r with
      | Some r' => Some (JObj [], r')
      | None =>
          match parseMembers fuel r with
          | Some (ms, r') => Some (JObj ms, r')
          | None => None
          end
      end
  | None, Some r, _ =>
      match expect 93 r with
      | Some r' => Some (JArr [], r')
      | None =>
          match parseElements fuel r with
          | Some (vs, r') => Some (JArr vs, r')
          | None => None
          end
      end
  | None, None, Some r =>
      match parseChars r with
      | Some (str, r') => Some (JStr str, r')
      | None => None
      end
  | None, None, None => parseLiteral (skipWs s)
  end.
Proof. reflexivity. Qed.

Lemma parseElements_S (fuel : nat) (s : jsstring) :
  parseElements (S fuel) s =
  match parseValue fuel s with
  | None => None
  | Some (v, r) =>
      match expect 44 r, expect 93 r with
      | Some r', _ =>
          match parseElements fuel r' with
          | Some (vs, r'') => Some (v :: vs, r'')
          | None => None
          end
      | None, Some r' => Some ([v], r')
      | None, None => None
      end
  end.
Proof. reflexivity. Qed.

Lemma parseMembers_S (fuel : nat) (s : jsstring) :
  parseMembers (S fuel) s =
  match expect 34 s with
  | None => None
  | Some r =>
      match parseChars r with
      | None => None
      | Some (key, r1) =>
          match expect 58 r1 with
          | None => None
          | Some r2 =>
              match parseValue fuel r2 with
              | None => None
              | Some (v, r3) =>
                  match expect 44 r3, expect 125 r3 with
                  | Some r4, _ =>
                      match parseMembers fuel r4 with
                      | Some (ms, r5) => Some ((key, v) :: ms, r5)
                      | None => None
                      end
                  | None, Some r4 => Some ([(key, v)], r4)
                  | None, None => None
                  end
              end
          end
      end
  end.
Proof. reflexivity. Qed.

Ltac more_fuel f :=
  destruct f as [| f]; [lia |].

(** A parse that succeeds with some fuel consumes input, and succeeds
    with the same result as soon as the fuel is twice what it consumes. *)
Lemma parse_adequate (fuel : nat) :
  adequate parseValue fuel /\ adequate parseElements fuel
  /\ adequate parseMembers fuel.
Proof.
  induction fuel as [| fuel [IHv [IHe IHm]]].
  - split; [| split]; intros s a r H; discriminate.
  - split; [| split]; intros s a r H.
    + rewrite parseValue_S in H.
      destruct (expect 123 s) as [r1 |] eqn:Hobj.
      { pose proof (expect_length _ _ _ Hobj) as L1.
        destruct (expect 125 r1) as [r2 |] eqn:Hclose.
        - injection H as <- <-. pose proof (expect_length _ _ _ Hclose) as L2.
          split; [lia |]. intros f Hf. more_fuel f.
          rewrite parseValue_S, Hobj, Hclose. reflexivity.
        - destruct (parseMembers fuel r1) as [[ms r2] |] eqn:Hms; [| discriminate].
          injection H as <- <-. destruct (IHm _ _ _ Hms) as [L2 Hmore].
          split; [lia |]. intros f Hf. more_fuel f.
          rewrite parseValue_S, Hobj, Hclose, (Hmore f) by lia. reflexivity. }
      destruct (expect 91 s) as [r1 |] eqn:Harr.
      { pose proof (expect_length _ _ _ Harr) as L1.
        destruct (expect 93 r1) as [r2 |] eqn:Hclose.
        - injection H as <- <-. pose proof (expect_length _ _ _ Hclose) as L2.
          split; [lia |]. intros f Hf. more_fuel f.
          rewrite parseValue_S, Hobj, Harr, Hclose. reflexivity.
        - destruct (parseElements fuel r1) as [[vs r2] |] eqn:Hvs; [| discriminate].
          injection H as <- <-. destruct (IHe _ _ _ Hvs) as [L2 Hmore].
          split; [lia |]. intros f Hf. more_fuel f.
          rewrite parseValue_S, Hobj, Harr, Hclose, (Hmore f) by lia. reflexivity. }
      destruct (expect 34 s) as [r1 |] eqn:Hstr.
      { pose proof (expect_length _ _ _ Hstr) as L1.
        destruct (parseChars r1) as [[str r2] |] eqn:Hchars; [| discriminate].
        injection H as <- <-. pose proof (parseChars_length _ _ _ Hchars) as L2.
        split; [lia |]. intros f Hf. more_fuel f.
        rewrite parseValue_S, Hobj, Harr, Hstr, Hchars. reflexivity. }
      pose proof (parseLiteral_length _ _ _ H) as L1.
      pose proof (skipWs_length s) as L2.
      split; [lia |]. intros f Hf. more_fuel f.
      rewrite parseValue_S, Hobj, Harr, Hstr. exact H.
    + rewrite parseElements_S in H.
      destruct (parseValue fuel s) as [[v r1] |] eqn:Hv; [| discriminate].
      destruct (IHv _ _ _ Hv) as [L1 Hmore1].
      destruct (expect 44 r1) as [r2 |] eqn:Hcomma.
      { pose proof (expect_length _ _ _ Hcomma) as L2.
        destruct (parseElements fuel r2) as [[vs r3] |] eqn:Hvs; [| discriminate].
        injection H as <- <-. destruct (IHe _ _ _ Hvs) as [L3 Hmore2].
        split; [lia |]. intros f Hf. more_fuel f.
        rewrite parseElements_S, (Hmore1 f), Hcomma, (Hmore2 f) by lia. reflexivity. }
      destruct (expect 93 r1) as [r2 |] eqn:Hclose; [| discriminate].
      injection H as <- <-. pose proof (expect_length _ _ _ Hclose) as L2.
      split; [lia |]. intros f Hf. more_fuel f.
      rewrite parseElements_S, (Hmore1 f), Hcomma, Hclose by lia. reflexivity.
    + rewrite parseMembers_S in H.
      destruct (expect 34 s) as [r0 |] eqn:Hquote; [| discriminate].
      pose proof (expect_length _ _ _ Hquote) as L0.
      destruct (parseChars r0) as [[key r1] |] eqn:Hkey; [| discriminate].
      pose proof (parseChars_length _ _ _ Hkey) as L1.
      destruct (expect 58 r1) as [r2 |] eqn:Hcolon; [| discriminate].
      pose proof (expect_length _ _ _ Hcolon) as L2.
      destruct (parseValue fuel r2) as [[v r3] |] eqn:Hv; [| discriminate].
      destruct (IHv _ _ _ Hv) as [L3 Hmore1].
      destruct (expect 44 r3) as [r4 |] eqn:Hcomma.
      { pose proof (expect_length _ _ _ Hcomma) as L4.
        destruct (parseMembers fuel r4) as [[ms r5] |] eqn:Hms; [| discriminate].
        injection H as <- <-. destruct (IHm _ _ _ Hms) as [L5 Hmore2].
        split; [lia |]. intros f Hf. more_fuel f.
        rewrite parseMembers_S, Hquote, Hkey, Hcolon, (Hmore1 f), Hcomma, (Hmore2 f)
          by lia.
        reflexivity. }
      destruct (expect 125 r3) as [r4 |] eqn:Hclose; [| discriminate].
      injection H as <- <-. pose proof (expect_length _ _ _ Hclose) as L4.
      split; [lia |]. intros f Hf. more_fuel f.
      rewrite parseMembers_S, Hquote, Hkey, Hcolon, (Hmore1 f), Hcomma, Hclose by lia.
      reflexivity.
Qed.

(** The fuel of [JSON_parse] is never what makes it fail: a text that
    parses with some fuel parses with the fuel [JSON_parse] takes. *)
Lemma JSON_parse_enough_fuel (fuel : nat) (text : jsstring) (v : json) (rest : jsstring) :
  parseValue fuel text = Some (v, rest) ->
  skipWs rest = [] ->
  JSON_parse text = Some v.
Proof.
  intros Hparse Hrest. unfold JSON_parse.
  destruct (parse_adequate fuel) as [Hv _].
  destruct (Hv _ _ _ Hparse) as [_ Hmore].
  rewrite (Hmore (2 * length text + 2)%nat) by lia.
  rewrite Hrest. reflexivity.
Qed.

End JsonFuel.

(** ** The retry wrapper *)

Section RetryFacts.

Import GeminiService Scenario.

Context {W T : Type}.
Variable sleep : Z -> W -> W.
Variable fn : W -> outcome T * W.

(** One step of the wrapper, as the source reads. *)
Lemma retryWithBackoff_step (retries delay : Z) (s : St) :
  retryWithBackoff sleep fn retries delay s =
  match invoke fn s with
  | (Return v, s1) => (Return v, s1)
  | (Throw error, s1) =>
      if (0 <? retries) && isOverloaded error
      then retryWithBackoff sleep fn (retries - 1) (delay * 2)
             (setTimeout sleep delay (console_warn delay retries s1))
      else (Throw error, s1)
  end.
Proof.
  simp retryWithBackoff.
  destruct (invoke fn s) as [[v | error] s1]; cbn.
  - reflexivity.
  - destruct (Z_lt_dec 0 retries) as [Hpos | Hneg]; cbn.
    + assert (Hb : (0 <? retries) = true) by (apply Z.ltb_lt; exact Hpos).
      rewrite Hb. destruct (isOverloaded error); reflexivity.
    + assert (Hb : (0 <? retries) = false) by (apply Z.ltb_ge; lia).
      rewrite Hb. reflexivity.
Qed.

Lemma invoke_trace (s : St) :
  trace (snd (invoke fn s)) = trace s ++ [Invoke].
Proof.
  unfold invoke. destruct (fn (world s)); reflexivity.
Qed.

Lemma overloadSignal_iff (e : thrown) :
  overloadSignal e <-> isOverloaded e = true.
Proof.
  unfold overloadSignal, isOverloaded. split.
  - intros [Hst | [m [Hm [Ho | Ho]]]].
    + rewrite Hst. reflexivity.
    + rewrite Hm, Ho. apply orb_true_iff. left. apply orb_true_r.
    + rewrite Hm, Ho. apply orb_true_r.
  - intros H. apply orb_true_iff in H. destruct H as [H | H].
    + apply orb_true_iff in H. destruct H as [H | H].
      * left. destruct (thrown_status e) as [st |]; [| discriminate].
        apply Z.eqb_eq in H. subst st. reflexivity.
      * right. destruct (thrown_message e) as [m |]; [| discriminate].
        exists m. split; [reflexivity | left; exact H].
    + right. destruct (thrown_message e) as [m |]; [| discriminate].
      exists m. split; [reflexivity | right; exact H].
Qed.

End RetryFacts.

Section RetryClaims.

Import GeminiService Scenario.

Context {W T : Type}.
Variable sleep : Z -> W -> W.
Variable fn : W -> outcome T * W.

Lemma invocations_app (a b : list event) :
  invocations (a ++ b) = (invocations a + invocations b)%nat.
Proof.
  unfold invocations. rewrite filter_app, length_app. reflexivity.
Qed.

Lemma delays_app (a b : list event) : delays (a ++ b) = delays a ++ delays b.
Proof.
  unfold delays. apply flat_map_app.
Qed.

(** The wrapper only adds to the trace, and what it adds holds between one
    and [retries + 1] invocations. *)
Lemma retry_invocations_bound (n : nat) :
  forall (retries delay : Z) (s : St) (result : outcome T * St),
    Z.to_nat retries = n ->
    retryWithBackoff sleep fn retries delay s = result ->
    exists tr,
      trace (snd result) = trace s ++ tr
      /\ (1 <= invocations tr <= S n)%nat.
Proof.
  induction n as [| n IH]; intros retries delay s result Hn Hres;
    rewrite retryWithBackoff_step in Hres;
    pose proof (invoke_trace fn s) as Htr;
    destruct (invoke fn s) as [[v | error] s1]; cbn [snd] in *.
  - subst result. exists [Invoke]. split; [exact Htr | cbn; lia].
  - assert (Hb : (0 <? retries) = false) by (apply Z.ltb_ge; lia).
    rewrite Hb in Hres. cbn in Hres. subst result.
    exists [Invoke]. split; [exact Htr | cbn; lia].
  - subst result. exists [Invoke]. split; [exact Htr | cbn; lia].
  - destruct ((0 <? retries) && isOverloaded error) eqn:Hgo.
    + apply andb_true_iff in Hgo. destruct Hgo as [Hpos _].
      apply Z.ltb_lt in Hpos.
      destruct (IH (retries - 1) (delay * 2)
                  (setTimeout sleep delay (console_warn delay retries s1))
                  result)
        as [tr [Heq Hcount]]; [lia | exact Hres |].
      exists ([Invoke; Warn delay retries; Sleep delay] ++ tr). split.
      * rewrite Heq. cbn [setTimeout console_warn log trace]. rewrite Htr.
        rewrite <- !app_assoc. reflexivity.
      * rewrite invocations_app. cbn. lia.
    + subst result. exists [Invoke]. split; [exact Htr | cbn; lia].
Qed.

(** C2: a failure that is not a transient-overload signal (status other
    than 503, message containing neither 'overloaded' nor '503') is
    propagated unchanged after exactly one invocation, with no warning and
    no delay, whatever the retry budget and the base delay. *)
Theorem retry_non_overload_propagates (retries delay : Z) (s : St)
    (e : thrown) (w' : W) :
  fn (world s) = (Throw e, w') ->
  thrown_status e <> Some 503 ->
  (forall m, thrown_message e = Some m ->
     includes m (js "overloaded") = false /\ includes m (js "503") = false) ->
  retryWithBackoff sleep fn retries delay s
  = (Throw e, {| world := w'; trace := trace s ++ [Invoke] |}).
Proof.
  intros Hfn Hst Hmsg.
  assert (Hno : isOverloaded e = false).
  { destruct (isOverloaded e) eqn:Ho; [| reflexivity].
    apply overloadSignal_iff in Ho.
    destruct Ho as [Ho | [m [Hm Ho]]]; [contradiction |].
    destruct (Hmsg m Hm) as [H1 H2]. rewrite H1, H2 in Ho.
    destruct Ho; discriminate. }
  rewrite retryWithBackoff_step. unfold invoke. rewrite Hfn, Hno.
  rewrite andb_false_r. reflexivity.
Qed.

(** C9: for every operation, every retry budget r >= 0 and every
    behaviour of the operation, the wrapper returns, having invoked the
    operation at most r + 1 times; a retry is a call of the wrapper with
    the budget r - 1, which is strictly smaller in the well-founded order
    of the definition. *)
Theorem retry_terminates_within_budget (retries delay : Z) (s : St) :
  0 <= retries ->
  (exists result tr,
      retryWithBackoff sleep fn retries delay s = result
      /\ trace (snd result) = trace s ++ tr
      /\ Z.of_nat (invocations tr) <= retries + 1)
  /\ (forall e s1,
        invoke fn s = (Throw e, s1) -> 0 < retries -> isOverloaded e = true ->
        retryWithBackoff sleep fn retries delay s
        = retryWithBackoff sleep fn (retries - 1) (delay * 2)
            (setTimeout sleep delay (console_warn delay retries s1))
        /\ (Z.to_nat (retries - 1) < Z.to_nat retries)%nat).
Proof.
  intros Hr. split.
  - destruct (retry_invocations_bound (Z.to_nat retries) retries delay s _
                eq_refl eq_refl) as [tr [Heq Hcount]].
    exists (retryWithBackoff sleep fn retries delay s), tr.
    split; [reflexivity | split; [exact Heq | lia]].
  - intros e s1 Hinv Hpos Ho. split; [| lia].
    rewrite retryWithBackoff_step at 1. rewrite Hinv, Ho.
    apply Z.ltb_lt in Hpos. rewrite Hpos. reflexivity.
Qed.

End RetryClaims.

Section ScriptedRetry.

Import GeminiService Scenario.

Context {T : Type}.
Variable behaviour : nat -> outcome T.

Lemma backoffTrace_invocations (n : nat) :
  forall retries delay, invocations (backoffTrace n retries delay) = S n.
Proof.
  induction n as [| n IH]; intros retries delay; cbn.
  - reflexivity.
  - specialize (IH (retries - 1) (delay * 2)). unfold invocations in IH.
    rewrite IH. reflexivity.
Qed.

Lemma backoffTrace_delays (n : nat) :
  forall retries delay k,
    delays (backoffTrace n retries (delay * 2 ^ Z.of_nat k))
    = map (fun j => delay * 2 ^ Z.of_nat j) (seq k n).
Proof.
  induction n as [| n IH]; intros retries delay k; cbn.
  - reflexivity.
  - f_equal.
    replace (delay * 2 ^ Z.of_nat k * 2) with (delay * 2 ^ Z.of_nat (S k)).
    + apply IH.
    + rewrite Nat2Z.inj_succ, Z.pow_succ_r by lia. ring.
Qed.

(** [n] overloaded failures within the budget, then the next attempt,
    whatever it gives. *)
Lemma retry_scripted_run (n : nat) :
  forall (retries delay : Z) (s : St),
    Z.of_nat n <= retries ->
    (forall i, (i < n)%nat ->
       exists e, behaviour (world s + i) = Throw e /\ isOverloaded e = true) ->
    (forall e, behaviour (world s + n) = Throw e ->
       retries = Z.of_nat n \/ isOverloaded e = false) ->
    retryWithBackoff noSleep (scripted behaviour) retries delay s
    = (behaviour (world s + n)%nat,
       {| world := S (world s + n);
          trace := trace s ++ backoffTrace n retries delay |}).
Proof.
  induction n as [| n IH]; intros retries delay s Hle Hfail Hlast;
    rewrite retryWithBackoff_step; unfold invoke, scripted.
  - rewrite Nat.add_0_r in *. destruct (behaviour (world s)) as [v | e] eqn:Hb.
    + reflexivity.
    + destruct (Hlast e eq_refl) as [H0 | Hno].
      * subst retries. reflexivity.
      * rewrite Hno, andb_false_r. reflexivity.
  - destruct (Hfail 0%nat ltac:(lia)) as [e [He Ho]].
    rewrite Nat.add_0_r in He. rewrite He, Ho.
    assert (Hpos : (0 <? retries) = true) by (apply Z.ltb_lt; lia).
    rewrite Hpos. cbn [andb].
    rewrite IH; cbn [setTimeout console_warn log world trace noSleep].
    + replace (S (world s) + n)%nat with (world s + S n)%nat by lia.
      rewrite <- !app_assoc. reflexivity.
    + lia.
    + intros i Hi. replace (S (world s) + i)%nat with (world s + S i)%nat by lia.
      apply Hfail. lia.
    + intros e' He'.
      replace (S (world s) + n)%nat with (world s + S n)%nat in He' by lia.
      destruct (Hlast e' He') as [Hr | Hno]; [left; lia | right; exact Hno].
Qed.

(** C1: an operation that fails with an overload signal on its first N
    invocations (N <= 3) and then succeeds: the wrapper at its default
    parameters returns that success after N + 1 invocations, having waited
    2000 * 2^(k-1) ms before the k-th retry; when the first four
    invocations all fail with an overload signal it stops after those four
    and throws the last failure. *)
Theorem retry_default_backoff :
  (forall (N : nat) (v : T),
      (N <= 3)%nat ->
      (forall i, (i < N)%nat -> exists e, behaviour i = Throw e /\ overloadSignal e) ->
      behaviour N = Return v ->
      exists s',
        retryWithBackoff_default noSleep (scripted behaviour) fresh = (Return v, s')
        /\ world s' = S N
        /\ invocations (trace s') = S N
        /\ trace s' = backoffTrace N 3 2000
        /\ delays (trace s') = doubling 2000 N)
  /\ (forall last,
        (forall i, (i < 4)%nat -> exists e, behaviour i = Throw e /\ overloadSignal e) ->
        behaviour 3%nat = Throw last ->
        exists s',
          retryWithBackoff_default noSleep (scripted behaviour) fresh = (Throw last, s')
          /\ world s' = 4%nat
          /\ invocations (trace s') = 4%nat
          /\ delays (trace s') = [2000; 4000; 8000]).
Proof.
  split.
  - intros N v HN Hfail Hok.
    exists {| world := S N; trace := backoffTrace N 3 2000 |}.
    unfold retryWithBackoff_default.
    rewrite (retry_scripted_run N 3 2000 fresh); cbn [fresh world trace app Nat.add].
    + rewrite Hok. repeat split.
      * apply backoffTrace_invocations.
      * pose proof (backoffTrace_delays N 3 2000 0) as Hd.
        cbn [Z.of_nat] in Hd. rewrite Z.pow_0_r, Z.mul_1_r in Hd. exact Hd.
    + lia.
    + intros i Hi. destruct (Hfail i Hi) as [e [He Ho]].
      exists e. split; [exact He | apply overloadSignal_iff; exact Ho].
    + intros e He. rewrite Hok in He. discriminate.
  - intros last Hfail Hlast.
    exists {| world := 4%nat; trace := backoffTrace 3 3 2000 |}.
    unfold retryWithBackoff_default.
    rewrite (retry_scripted_run 3 3 2000 fresh); cbn [fresh world trace app Nat.add].
    + rewrite Hlast. repeat split.
    + lia.
    + intros i Hi. destruct (Hfail i ltac:(lia)) as [e [He Ho]].
      exists e. split; [exact He | apply overloadSignal_iff; exact Ho].
    + intros e _. left. reflexivity.
Qed.

End ScriptedRetry.

(** ** The prompt parser *)

Section ParserClaims.

Import GeminiService Scenario.

Lemma getProp_truthy (v : json) (key : jsstring) (x : json) :
  getProp v key = Some x -> truthy v = true.
Proof.
  destruct v; cbn; intros H; try discriminate. reflexivity.
Qed.

Lemma getProp_not_array (v : json) (key : jsstring) (x : json) :
  getProp v key = Some x -> isArray (Some v) = None.
Proof.
  destruct v; cbn; intros H; try discriminate. reflexivity.
Qed.

(** The [try] block falls through to the final [throw] exactly for a
    parsed value of neither accepted shape. *)
Lemma parseBlock_parsed (response_text : option jsstring) (v : json) :
  JSON_parse (extractObject (stripFences (orEmpty response_text))) = Some v ->
  parseBlock response_text =
  match isArray (getProp v (js "prompts")) with
  | Some entries =>
      if (3 <=? length (filter isLongString entries))%nat
      then Returns (firstn 3 (filter isLongString entries))
      else Normal
  | None =>
      match v with
      | JArr arr =>
          if (3 <=? length arr)%nat then Returns (filter isString (firstn 3 arr))
          else Normal
      | _ => Normal
      end
  end.
Proof.
  intros Hparse. unfold parseBlock. cbv zeta. rewrite Hparse.
  destruct (isArray (getProp v (js "prompts"))) as [entries |] eqn:Hp.
  - assert (Hobj : exists x, getProp v (js "prompts") = Some x).
    { destruct (getProp v (js "prompts")) as [x |]; [eauto | discriminate]. }
    destruct Hobj as [x Hx].
    rewrite (getProp_truthy _ _ _ Hx), (getProp_not_array _ _ _ Hx).
    unfold slice0.
    replace (3 <=? Z.of_nat (length (filter isLongString entries)))
      with (3 <=? length (filter isLongString entries))%nat.
    + destruct (3 <=? length (filter isLongString entries))%nat; reflexivity.
    + destruct (Nat.leb_spec 3 (length (filter isLongString entries)));
        symmetry; [apply Z.leb_le | apply Z.leb_gt]; lia.
  - assert (Hfall : (if truthy v then @Normal (list json) else Normal) = Normal)
      by (destruct (truthy v); reflexivity).
    rewrite Hfall. unfold slice0. destruct v; try reflexivity. cbn [isArray].
    replace (3 <=? Z.of_nat (length elements)) with (3 <=? length elements)%nat.
    + reflexivity.
    + destruct (Nat.leb_spec 3 (length elements));
        symmetry; [apply Z.leb_le | apply Z.leb_gt]; lia.
Qed.

(** The truth value of the parsed result only matters for objects. *)
Lemma truthy_guard_irrelevant (v : json) :
  isArray (getProp v (js "prompts")) <> None -> truthy v = true.
Proof.
  destruct (getProp v (js "prompts")) as [x |] eqn:Hx.
  - intros _. exact (getProp_truthy _ _ _ Hx).
  - intros H. contradiction H. reflexivity.
Qed.

Lemma parseBlock_unparsed (response_text : option jsstring) :
  JSON_parse (extractObject (stripFences (orEmpty response_text))) = None ->
  parseBlock response_text = Throws syntaxError.
Proof.
  intros Hparse. unfold parseBlock. cbv zeta. rewrite Hparse. reflexivity.
Qed.

(** Whatever shape is accepted, the stage returns at most three values
    and all of them are strings; through the object shape it returns
    exactly three. *)
Lemma parsePrompts_at_most_three_strings (response_text : option jsstring)
    (r : list json) :
  parsePrompts response_text = Return r ->
  (length r <= 3)%nat /\ Forall (fun p => isString p = true) r.
Proof.
  unfold parsePrompts.
  destruct (JSON_parse (extractObject (stripFences (orEmpty response_text))))
    as [v |] eqn:Hparse.
  - rewrite (parseBlock_parsed _ _ Hparse).
    destruct (isArray (getProp v (js "prompts"))) as [entries |].
    + destruct (3 <=? length (filter isLongString entries))%nat; [| discriminate].
      intros H.
      assert (Hr : r = firstn 3 (filter isLongString entries)) by congruence.
      subst r. clear H. split.
      * rewrite length_firstn. lia.
      * apply Forall_forall. intros p Hin.
        apply (In_nth _ _ JNull) in Hin. destruct Hin as [i [Hi <-]].
        rewrite length_firstn in Hi. rewrite nth_firstn.
        replace (i <? 3)%nat with true by (symmetry; apply Nat.ltb_lt; lia).
        assert (Hin : In (nth i (filter isLongString entries) JNull)
                        (filter isLongString entries)) by (apply nth_In; lia).
        apply filter_In in Hin. destruct Hin as [_ Hlong].
        destruct (nth i (filter isLongString entries) JNull);
          try discriminate. reflexivity.
    + destruct v as [| | | | arr |]; try discriminate.
      destruct (3 <=? length arr)%nat; [| discriminate].
      intros H.
      assert (Hr : r = filter isString (firstn 3 arr)) by congruence.
      subst r. clear H. split.
      * pose proof (filter_length_le isString (firstn 3 arr)) as Hle.
        rewrite length_firstn in Hle. lia.
      * apply Forall_forall. intros p Hin. apply filter_In in Hin. apply Hin.
  - rewrite (parseBlock_unparsed _ Hparse). discriminate.
Qed.

Lemma parsePrompts_object_shape_three (response_text : option jsstring)
    (v : json) (entries r : list json) :
  JSON_parse (extractObject (stripFences (orEmpty response_text))) = Some v ->
  getProp v (js "prompts") = Some (JArr entries) ->
  parsePrompts response_text = Return r ->
  length r = 3%nat.
Proof.
  intros Hparse Hp. unfold parsePrompts.
  rewrite (parseBlock_parsed _ _ Hparse), Hp. cbn [isArray].
  destruct (3 <=? length (filter isLongString entries))%nat eqn:Hlen;
    [| discriminate].
  intros H.
  assert (Hr : r = firstn 3 (filter isLongString entries)) by congruence.
  subst r. apply Nat.leb_le in Hlen. rewrite length_firstn. lia.
Qed.

(** C3 at a failing input: three non-empty strings in the [prompts] field
    satisfy the documented condition (and the comment above the filter:
    empty strings or non-string values are filtered out), but the filter
    [p.length > 10] drops them and the stage throws. *)
Lemma parsePrompts_short_strings_rejected :
  documentedParse (jsq "{'prompts':['front','side','top']}")
  = Return [JStr (js "front"); JStr (js "side"); JStr (js "top")]
  /\ parsePrompts (Some (jsq "{'prompts':['front','side','top']}"))
     = Throw malformed.
Proof.
  split; vm_compute; reflexivity.
Qed.

(** The sibling path has no such limit: the same three strings as a bare
    array are returned, and so are three empty strings. *)
Lemma parsePrompts_fallback_keeps_short_strings :
  parsePrompts (Some (jsq "['front','side','top']"))
  = Return [JStr (js "front"); JStr (js "side"); JStr (js "top")]
  /\ parsePrompts (Some (jsq "['','','']")) = Return [JStr []; JStr []; JStr []].
Proof.
  split; vm_compute; reflexivity.
Qed.

(** The parsing stage case by case.  Let t be the raw text with the fence
    markers removed, trimmed, and cut to the substring from the first [{]
    to the last [}] when there is one.  If t is not JSON the stage throws
    the invalid-instructions error; if t parses to a value whose [prompts]
    field is an array with at least 3 strings longer than 10 code units it
    returns the first 3 of these; if t parses to an array of at least 3
    elements whose first three are strings it returns these three; and if
    t parses to a value with fewer than 3 such strings in [prompts] (or no
    such array) that is not an array of at least 3 elements, it throws the
    malformed-response error. *)
Theorem parsePrompts_accepts (response_text : option jsstring) :
  let t := extractObject (stripFences (orEmpty response_text)) in
  (JSON_parse t = None -> parsePrompts response_text = Throw invalidInstructions)
  /\ (forall v entries,
        JSON_parse t = Some v ->
        getProp v (js "prompts") = Some (JArr entries) ->
        (3 <= length (filter isLongString entries))%nat ->
        parsePrompts response_text
        = Return (firstn 3 (filter isLongString entries)))
  /\ (forall a b c rest,
        JSON_parse t = Some (JArr (JStr a :: JStr b :: JStr c :: rest)) ->
        parsePrompts response_text = Return [JStr a; JStr b; JStr c])
  /\ (forall v,
        JSON_parse t = Some v ->
        (forall entries, getProp v (js "prompts") = Some (JArr entries) ->
           (length (filter isLongString entries) < 3)%nat) ->
        (forall arr, v = JArr arr -> (length arr < 3)%nat) ->
        parsePrompts response_text = Throw malformed).
Proof.
  cbv zeta. repeat split.
  - intros Hnone. unfold parsePrompts.
    rewrite (parseBlock_unparsed _ Hnone). reflexivity.
  - intros v entries Hv Hp Hlen. unfold parsePrompts.
    rewrite (parseBlock_parsed _ _ Hv), Hp. cbn [isArray].
    apply Nat.leb_le in Hlen. rewrite Hlen. reflexivity.
  - intros a b c rest Hv. unfold parsePrompts.
    rewrite (parseBlock_parsed _ _ Hv). reflexivity.
  - intros v Hv Hobj Harr. unfold parsePrompts.
    rewrite (parseBlock_parsed _ _ Hv).
    destruct (getProp v (js "prompts")) as [[| | | | entries |] |] eqn:Hp;
      cbn [isArray];
      try (destruct v as [| | | | arr |];
           [reflexivity | reflexivity | reflexivity | reflexivity | | reflexivity];
           specialize (Harr arr eq_refl); apply Nat.leb_gt in Harr;
           rewrite Harr; reflexivity).
    specialize (Hobj entries eq_refl). apply Nat.leb_gt in Hobj.
    rewrite Hobj. reflexivity.
Qed.

(** C4 at a failing input: the model answers with a bare array whose
    second element is [null]; the fallback slices before it filters, and
    [getRotationPrompts] fulfils with two prompts. *)
Lemma getRotationPrompts_fallback_two_prompts :
  fst (getRotationPrompts (fun _ w => w) (Some (js "key"))
         (answering (textResponse
            (jsq "['Rotate to the front view', null, 'Rotate to the top view']")))
         (fun _ => []) (js "iVBORw0KGgo=") (js "image/png") false standard
         {| world := tt; trace := [] |})
  = Return [JStr (js "Rotate to the front view"); JStr (js "Rotate to the top view")].
Proof.
  vm_compute. reflexivity.
Qed.

(** C10, as stated, fails: on a text that is not JSON the copy of
    [geminiService.ts] throws the invalid-instructions error from its
    [catch], the copy of [part_001] only logs there and throws the
    malformed-response error. *)
Lemma copies_differ_on_unparsable_text :
  parsePrompts (Some (js "I cannot help with this image."))
  = Throw invalidInstructions
  /\ Part001.parsePrompts (Some (js "I cannot help with this image."))
     = Throw malformed
  /\ invalidInstructions <> malformed.
Proof.
  repeat split; try (vm_compute; reflexivity).
  vm_compute. discriminate.
Qed.

(** C10, amended: on every raw text the two copies either both return the
    same list of prompts or both throw; the two errors are the same
    malformed-response error when the extracted text is JSON, and when it
    is not [geminiService.ts] throws the invalid-instructions error where
    [part_001] throws the malformed-response error. *)
Theorem copies_agree_up_to_parse_error (response_text : option jsstring) :
  match parsePrompts response_text, Part001.parsePrompts response_text with
  | Return a, Return b => a = b
  | Throw e1, Throw e2 =>
      match JSON_parse (extractObject (stripFences (orEmpty response_text))) with
      | Some _ => e1 = malformed /\ e2 = malformed
      | None => e1 = invalidInstructions /\ e2 = malformed
      end
  | _, _ => False
  end.
Proof.
  unfold parsePrompts, Part001.parsePrompts.
  destruct (JSON_parse (extractObject (stripFences (orEmpty response_text))))
    as [v |] eqn:Hparse.
  - rewrite (parseBlock_parsed _ _ Hparse).
    destruct (isArray (getProp v (js "prompts"))) as [entries |].
    + destruct (3 <=? length (filter isLongString entries))%nat;
        [reflexivity | split; reflexivity].
    + destruct v as [| | | | arr |]; try (split; reflexivity).
      destruct (3 <=? length arr)%nat; [reflexivity | split; reflexivity].
  - rewrite (parseBlock_unparsed _ Hparse). split; reflexivity.
Qed.

End ParserClaims.

(** ** The image renderer *)

Section RendererClaims.

Import GeminiService Scenario.

Lemma str_eqb_eq (a b : jsstring) : str_eqb a b = true <-> a = b.
Proof.
  unfold str_eqb. destruct (list_eq_dec N.eq_dec a b); split;
    intros H; try reflexivity; try assumption; try discriminate; contradiction.
Qed.

Lemma find_hasInlineData_split (before : list Part) (part : Part) (after : list Part) :
  Forall (fun q => inlineData q = None) before ->
  hasInlineData part = true ->
  find hasInlineData (before ++ part :: after) = Some part.
Proof.
  intros Hnone Hpart. induction Hnone as [| q before Hq _ IH]; cbn.
  - rewrite Hpart. reflexivity.
  - unfold hasInlineData at 1. rewrite Hq. exact IH.
Qed.

Lemma find_hasInlineData_first (ps : list Part) (part : Part) :
  find hasInlineData ps = Some part ->
  exists before after blob,
    ps = before ++ part :: after
    /\ Forall (fun q => inlineData q = None) before
    /\ inlineData part = Some blob.
Proof.
  induction ps as [| q ps IH]; cbn; intros Hfind; [discriminate |].
  destruct (hasInlineData q) eqn:Hq.
  - injection Hfind as ->. unfold hasInlineData in Hq.
    destruct (inlineData part) as [blob |] eqn:Hb; [| discriminate].
    exists [], ps, blob. repeat split. constructor.
  - destruct (IH Hfind) as [before [after [blob [Hps [Hnone Hb]]]]].
    exists (q :: before), after, blob. subst ps. repeat split; [| exact Hb].
    constructor; [| exact Hnone].
    unfold hasInlineData in Hq. destruct (inlineData q); [discriminate | reflexivity].
Qed.

Lemma imageOfResponse_found (response : GenerateContentResponse) (blob : Blob) :
  firstInlineData response blob ->
  imageOfResponse response = Return (dataUri blob).
Proof.
  intros [first [others [c [before [part [after [Hc [Hct [Hps [Hnone Hb]]]]]]]]]].
  unfold imageOfResponse, findImagePart. rewrite Hc, Hct, Hps.
  rewrite (find_hasInlineData_split before part after Hnone).
  - rewrite Hb. reflexivity.
  - unfold hasInlineData. rewrite Hb. reflexivity.
Qed.

Lemma imageOfResponse_cases (response : GenerateContentResponse) :
  (exists blob, firstInlineData response blob)
  \/ imageOfResponse response = Throw noImage.
Proof.
  unfold imageOfResponse, findImagePart.
  destruct (candidates response) as [[| first others] |] eqn:Hc; try (right; reflexivity).
  destruct (content first) as [c |] eqn:Hct; try (right; reflexivity).
  destruct (parts c) as [ps |] eqn:Hps; try (right; reflexivity).
  destruct (find hasInlineData ps) as [part |] eqn:Hfind; try (right; reflexivity).
  destruct (find_hasInlineData_first ps part Hfind)
    as [before [after [blob [Heq [Hnone Hb]]]]].
  left. exists blob, first, others, c, before, part, after. subst ps. repeat split; assumption.
Qed.

(** The loop of [part_001] and the [find] of [geminiService.ts] give the
    same result on every response. *)
Lemma imageOfResponse_copies_agree (response : GenerateContentResponse) :
  Part001.imageOfResponse response = imageOfResponse response.
Proof.
  unfold Part001.imageOfResponse, imageOfResponse, findImagePart.
  destruct (candidates response) as [[| first others] |]; try reflexivity.
  destruct (content first) as [c |]; try reflexivity.
  destruct (parts c) as [ps |]; try reflexivity.
  induction ps as [| q ps IH]; cbn; [reflexivity |].
  unfold hasInlineData at 1. destruct (inlineData q) as [blob |] eqn:Hq.
  - rewrite Hq. reflexivity.
  - exact IH.
Qed.

Context {W : Type}.
Variable sleep : Z -> W -> W.
Variable API_KEY : option jsstring.
Variable generateContent : jsstring -> Request -> W -> outcome GenerateContentResponse * W.

(** C5: when the model call of [generateRotatedImage] yields a response,
    the function returns 'data:' + mimeType + ';base64,' + payload of the
    first part of the first candidate's content that carries inline data,
    and it throws the 'did not return an image' error exactly when the
    response has no such part. *)
Theorem generateRotatedImage_data_uri (base64Image mimeType0 prompt : jsstring)
    (mode : ModelMode) (style aspectRatio : jsstring) (s s' : St)
    (key : jsstring) (response : GenerateContentResponse) :
  getAI API_KEY = Return key ->
  retryWithBackoff_default sleep
    (generateContent key
       (imageRequest base64Image mimeType0 prompt mode style aspectRatio)) s
  = (Return response, s') ->
  let result :=
    fst (generateRotatedImage sleep API_KEY generateContent base64Image
           mimeType0 prompt mode (Some style) (Some aspectRatio) s) in
  (forall blob,
      firstInlineData response blob ->
      result = Return (js "data:" ++ template (mimeType blob)
                       ++ js ";base64," ++ template (data blob)))
  /\ (result = Throw noImage <-> ~ exists blob, firstInlineData response blob).
Proof.
  intros Hkey Hcall. cbv zeta. unfold generateRotatedImage.
  rewrite Hkey, Hcall. cbn [fst]. split.
  - intros blob Hfirst. apply imageOfResponse_found. exact Hfirst.
  - split.
    + intros Hthrow [blob Hfirst].
      rewrite (imageOfResponse_found _ _ Hfirst) in Hthrow. discriminate.
    + intros Hnone. destruct (imageOfResponse_cases response) as [Hsome | Hthrow];
        [contradiction | exact Hthrow].
Qed.

(** The wrapper on the recording environment does what it does on the
    plain one, and the record grows by the request once for each
    invocation. *)
Lemma retry_recording (key : jsstring) (request : Request) (budget : nat) :
  forall (retries delay : Z) (w : W) (record : list Request) (tr : list event),
    Z.to_nat retries = budget ->
    exists n,
      (n <= budget)%nat
      /\ retryWithBackoff (recordingSleep sleep) (recording generateContent key request)
           retries delay {| world := (w, record); trace := tr |}
         = (fst (retryWithBackoff sleep (generateContent key request) retries delay
                   {| world := w; trace := tr |}),
            {| world :=
                 (world (snd (retryWithBackoff sleep (generateContent key request)
                                retries delay {| world := w; trace := tr |})),
                  record ++ repeat request (S n));
               trace :=
                 trace (snd (retryWithBackoff sleep (generateContent key request)
                               retries delay {| world := w; trace := tr |})) |}).
Proof.
  induction budget as [| budget IH]; intros retries delay w record tr Hb;
    rewrite (retryWithBackoff_step (recordingSleep sleep)
               (recording generateContent key request)),
            (retryWithBackoff_step sleep (generateContent key request));
    unfold invoke, recording; cbn [world trace fst snd];
    destruct (generateContent key request w) as [[v | error] w1].
  - exists 0%nat. split; [lia | reflexivity].
  - assert (Hz : (0 <? retries) = false) by (apply Z.ltb_ge; lia).
    rewrite Hz. cbn [andb]. exists 0%nat. split; [lia | reflexivity].
  - exists 0%nat. split; [lia | reflexivity].
  - destruct ((0 <? retries) && isOverloaded error) eqn:Hgo.
    + apply andb_true_iff in Hgo. destruct Hgo as [Hpos _]. apply Z.ltb_lt in Hpos.
      unfold setTimeout, console_warn, log, recordingSleep.
      cbn [world trace fst snd].
      destruct (IH (retries - 1) (delay * 2) (sleep delay w1) (record ++ [request])
                  (((tr ++ [Invoke]) ++ [Warn delay retries]) ++ [Sleep delay]))
        as [n [Hn Hrun]]; [lia |].
      exists (S n). split; [lia |].
      change (repeat request (S (S n))) with ([request] ++ repeat request (S n)).
      rewrite app_assoc. exact Hrun.
    + exists 0%nat. split; [lia | reflexivity].
Qed.

(** C7: whenever a key is configured, [generateRotatedImage] hands the
    model between one and four times one and the same request, whose text
    is the prompt unchanged when the style is 'Realistic' (given or
    omitted) and, for every other style, the prompt followed by the style
    instruction that names the style; the model, the image and the
    configuration of that request do not depend on the style.  Recording
    the requests changes nothing of what the function returns. *)
Theorem generateRotatedImage_submits_styled_prompt
    (key base64Image mimeType0 prompt : jsstring) (mode : ModelMode)
    (style aspectRatio : option jsstring) (s : St) :
  key <> [] ->
  let run :=
    generateRotatedImage (recordingSleep sleep) (Some key) (recording generateContent)
      base64Image mimeType0 prompt mode style aspectRatio (startRecording s) in
  exists n submittedText,
    (1 <= n <= 4)%nat
    /\ submitted (snd run)
       = repeat {| model := imageModel mode;
                   image_data := base64Image;
                   image_mimeType := mimeType0;
                   text_part := submittedText;
                   config := ImageConfig (match aspectRatio with
                                          | Some ratio => ratio
                                          | None => js "1:1"
                                          end) |} n
    /\ (style = None \/ style = Some (js "Realistic") -> submittedText = prompt)
    /\ (forall name,
          style = Some name -> name <> js "Realistic" ->
          submittedText
          = prompt ++ [10%N; 10%N]
            ++ js "IMPORTANT: Render this image in the style of: " ++ name
            ++ js ". Maintain the subject's identity but apply this art style strongly.")
    /\ fst run
       = fst (generateRotatedImage sleep (Some key) generateContent
                base64Image mimeType0 prompt mode style aspectRatio s).
Proof.
  intros Hkey. cbv zeta. unfold generateRotatedImage, getAI.
  destruct key as [| k key']; [contradiction |].
  unfold retryWithBackoff_default, startRecording.
  set (request := imageRequest base64Image mimeType0 prompt mode
                    match style with Some x => x | None => js "Realistic" end
                    match aspectRatio with Some x => x | None => js "1:1" end).
  destruct (retry_recording (k :: key') request 3 3 2000 (world s) [] (trace s) eq_refl)
    as [n [Hn Hrun]].
  rewrite Hrun. clear Hrun.
  replace {| world := world s; trace := trace s |} with s by (destruct s; reflexivity).
  destruct (retryWithBackoff sleep (generateContent (k :: key') request) 3 2000 s)
    as [[response | e] s'] eqn:Hplain; cbn [fst snd submitted world app];
    exists (S n), (text_part request).
  all: split; [lia |]; split; [reflexivity |]; split; [| split; [| reflexivity]].
  all: try (intros [Hs | Hs]; subst style; reflexivity).
  all: intros name Hs Hname; subst style; cbn [request imageRequest text_part];
    unfold finalPrompt;
    destruct (str_eqb name (js "Realistic")) eqn:Heq;
    [apply str_eqb_eq in Heq; contradiction | reflexivity].
Qed.

End RendererClaims.

(** ** The page orchestration *)

Section PageClaims.

Import GeminiService App.

Context {W : Type}.
Variable getRotationPrompts :
  jsstring -> jsstring -> bool -> ModelMode -> W -> outcome (list jsstring) * W.
Variable generateRotatedImage :
  jsstring -> jsstring -> jsstring -> ModelMode -> jsstring -> jsstring ->
  W -> outcome jsstring * W.

Variables base64Image mimeType0 : jsstring.
Variable st : AppState.

(** The render call of the run for one prompt. *)
Let render (p : jsstring) : W -> outcome jsstring * W :=
  generateRotatedImage base64Image mimeType0 p (modelMode st)
    (selectedStyle st) (selectedRatio st).

Let run (w : W) : AppState * W :=
  processImage getRotationPrompts generateRotatedImage base64Image mimeType0 st w.

Lemma handleFailure_status (err : thrown) (mode : ModelMode) (x : AppState) :
  status (handleFailure err mode x) = js "Failed"
  /\ generatedImages (handleFailure err mode x) = generatedImages x
  /\ originalImage (handleFailure err mode x) = originalImage x.
Proof.
  unfold handleFailure. destruct err as [code message | code message].
  - destruct (includes message (js "RESOURCE_EXHAUSTED") || includes message (js "429"));
      [repeat split |].
    destruct (includes message (js "503") || includes message (js "overloaded"));
      [repeat split |].
    destruct (includes message (js "Requested entity was not found"));
      [destruct mode |]; repeat split.
  - repeat split.
Qed.

(** C6: when prompt derivation yields p1, p2, p3 and the three render
    calls, made in this order, succeed with s1, s2, s3, the result list
    holds exactly the three pairs (s1, p1), (s2, p2), (s3, p3) in this
    order, the original image is untouched and the run ends Complete and
    not loading; [resetState] then clears the original image, the result
    list, the loading flag, the status and the error. *)
Theorem processImage_three_views (w w1 w2 w3 w4 : W)
    (p1 p2 p3 s1 s2 s3 : jsstring) :
  getRotationPrompts base64Image mimeType0 (isObjectRotationOnly st) (modelMode st) w
  = (Return [p1; p2; p3], w1) ->
  render p1 w1 = (Return s1, w2) ->
  render p2 w2 = (Return s2, w3) ->
  render p3 w3 = (Return s3, w4) ->
  let done := fst (run w) in
  generatedImages done
  = [ {| src := s1; prompt := p1 |};
      {| src := s2; prompt := p2 |};
      {| src := s3; prompt := p3 |} ]
  /\ snd (run w) = w4
  /\ originalImage done = originalImage st
  /\ status done = js "Complete"
  /\ isLoading done = false
  /\ error done = []
  /\ originalImage (resetState done) = None
  /\ generatedImages (resetState done) = []
  /\ isLoading (resetState done) = false
  /\ status (resetState done) = []
  /\ error (resetState done) = [].
Proof.
  unfold render, run. intros Hprompts H1 H2 H3. cbv zeta.
  unfold processImage, processBody. rewrite Hprompts.
  cbn [length Nat.ltb Nat.leb renderViews nth
       modelMode selectedStyle selectedRatio setStatus setError].
  rewrite H1. cbn [nth app]. rewrite H2. cbn [nth app]. rewrite H3.
  repeat split.
Qed.

(** C8: when the run fails after k = 1 or k = 2 of the three views were
    generated, the k generated images stay in the result list and the
    status is Failed (and the page is no longer loading). *)
Theorem processImage_partial_failure (w w1 w2 : W)
    (p1 p2 p3 s1 : jsstring) (rest : list jsstring) :
  getRotationPrompts base64Image mimeType0 (isObjectRotationOnly st) (modelMode st) w
  = (Return (p1 :: p2 :: p3 :: rest), w1) ->
  render p1 w1 = (Return s1, w2) ->
  let failed := fst (run w) in
  (forall e w3,
      render p2 w2 = (Throw e, w3) ->
      generatedImages failed = [ {| src := s1; prompt := p1 |} ]
      /\ status failed = js "Failed"
      /\ isLoading failed = false)
  /\ (forall s2 w3 e w4,
        render p2 w2 = (Return s2, w3) ->
        render p3 w3 = (Throw e, w4) ->
        generatedImages failed
        = [ {| src := s1; prompt := p1 |}; {| src := s2; prompt := p2 |} ]
        /\ status failed = js "Failed"
        /\ isLoading failed = false).
Proof.
  unfold render, run. intros Hprompts H1. cbv zeta.
  unfold processImage, processBody. rewrite Hprompts.
  cbn [length Nat.ltb Nat.leb renderViews nth
       modelMode selectedStyle selectedRatio setStatus setError].
  rewrite H1. cbn [nth app]. split.
  - intros e w3 H2. rewrite H2. cbn [fst].
    match goal with
    | |- context [handleFailure ?err ?mode ?x] =>
        destruct (handleFailure_status err mode x) as [Hs [Hg _]]
    end.
    cbn [setIsLoading generatedImages status isLoading].
    rewrite Hs, Hg. repeat split.
  - intros s2 w3 e w4 H2 H3. rewrite H2. cbn [nth app]. rewrite H3. cbn [fst].
    match goal with
    | |- context [handleFailure ?err ?mode ?x] =>
        destruct (handleFailure_status err mode x) as [Hs [Hg _]]
    end.
    cbn [setIsLoading generatedImages status isLoading].
    rewrite Hs, Hg. repeat split.
Qed.

End PageClaims.

(** ** The statements at concrete inputs *)

Section Witnesses.

Import GeminiService App Scenario.

(** C1 at two scripts: two 503 failures then 42, and nine 503 failures. *)
Lemma retry_default_backoff_witness :
  (exists s',
      retryWithBackoff_default noSleep (scripted (failing 2 unavailable 42%nat)) fresh
      = (Return 42%nat, s')
      /\ world s' = 3%nat
      /\ invocations (trace s') = 3%nat
      /\ trace s' = backoffTrace 2 3 2000
      /\ delays (trace s') = doubling 2000 2)
  /\ (exists s',
        retryWithBackoff_default noSleep (scripted (failing 9 unavailable 42%nat)) fresh
        = (Throw unavailable, s')
        /\ world s' = 4%nat
        /\ invocations (trace s') = 4%nat
        /\ delays (trace s') = [2000; 4000; 8000]).
Proof.
  split.
  - apply (proj1 (retry_default_backoff (failing 2 unavailable 42%nat)) 2%nat 42%nat).
    + lia.
    + intros i Hi. exists unavailable. split; [| left; reflexivity].
      destruct i as [| [| i]]; [reflexivity | reflexivity | lia].
    + reflexivity.
  - apply (proj2 (retry_default_backoff (failing 9 unavailable 42%nat)) unavailable).
    + intros i Hi. exists unavailable. split; [| left; reflexivity].
      destruct i as [| [| [| [| i]]]]; [reflexivity .. | lia].
    + reflexivity.
Defined.

(** C2 at an operation that fails with a quota error (status 429). *)
Lemma retry_non_overload_witness :
  retryWithBackoff noSleep (scripted (failing 2 quotaExceeded 42%nat)) 3 2000 fresh
  = (Throw quotaExceeded, {| world := 1%nat; trace := [Invoke] |}).
Proof.
  apply (retry_non_overload_propagates noSleep
           (scripted (failing 2 quotaExceeded 42%nat)) 3 2000 fresh quotaExceeded 1%nat).
  - reflexivity.
  - discriminate.
  - intros m Hm. injection Hm as <-. split; vm_compute; reflexivity.
Defined.

(** C9 at the budget 3 and an operation that keeps failing with 503. *)
Lemma retry_terminates_witness :
  (exists result tr,
      retryWithBackoff noSleep (scripted (failing 9 unavailable 42%nat)) 3 2000 fresh
      = result
      /\ trace (snd result) = trace fresh ++ tr
      /\ Z.of_nat (invocations tr) <= 3 + 1)
  /\ (forall e s1,
        invoke (scripted (failing 9 unavailable 42%nat)) fresh = (Throw e, s1) ->
        0 < 3 -> isOverloaded e = true ->
        retryWithBackoff noSleep (scripted (failing 9 unavailable 42%nat)) 3 2000 fresh
        = retryWithBackoff noSleep (scripted (failing 9 unavailable 42%nat))
            (3 - 1) (2000 * 2) (setTimeout noSleep 2000 (console_warn 2000 3 s1))
        /\ (Z.to_nat (3 - 1) < Z.to_nat 3)%nat).
Proof.
  apply (retry_terminates_within_budget noSleep
           (scripted (failing 9 unavailable 42%nat)) 3 2000 fresh).
  lia.
Defined.

(** The parsing stage at a fenced answer with five entries, one of them short. *)
Lemma parsePrompts_accepts_witness :
  parsePrompts
    (Some (jsq "```json {'prompts': ['Move the camera to the front.', 'short', 'Move the camera to the side.', 'Move the camera above.', 'Move the camera behind.']} ```"))
  = Return [JStr (js "Move the camera to the front.");
            JStr (js "Move the camera to the side.");
            JStr (js "Move the camera above.")].
Proof.
  apply (proj1 (proj2 (parsePrompts_accepts
           (Some (jsq "```json {'prompts': ['Move the camera to the front.', 'short', 'Move the camera to the side.', 'Move the camera above.', 'Move the camera behind.']} ```"))))
           (JObj [(js "prompts",
                   JArr [JStr (js "Move the camera to the front."); JStr (js "short");
                         JStr (js "Move the camera to the side.");
                         JStr (js "Move the camera above.");
                         JStr (js "Move the camera behind.")])])
           [JStr (js "Move the camera to the front."); JStr (js "short");
            JStr (js "Move the camera to the side.");
            JStr (js "Move the camera above.");
            JStr (js "Move the camera behind.")]).
  - vm_compute. reflexivity.
  - vm_compute. reflexivity.
  - vm_compute. lia.
Defined.

(** C5 at a response with a text part followed by an image part. *)
Lemma generateRotatedImage_data_uri_witness :
  fst (generateRotatedImage (fun _ w => w) (Some (js "key"))
         (answering (partsResponse
            [ {| inlineData := None; part_text := Some (js "Here is the view.") |};
              {| inlineData := Some {| mimeType := Some (js "image/png");
                                       data := Some (js "iVBORw0KGgo=") |};
                 part_text := None |} ]))
         (js "AAAA") (js "image/jpeg") (js "front") standard
         (Some (js "Sketch")) (Some (js "1:1")) {| world := tt; trace := [] |})
  = Return (js "data:image/png;base64,iVBORw0KGgo=").
Proof.
  apply (proj1 (generateRotatedImage_data_uri (fun _ w => w) (Some (js "key"))
           (answering (partsResponse
              [ {| inlineData := None; part_text := Some (js "Here is the view.") |};
                {| inlineData := Some {| mimeType := Some (js "image/png");
                                         data := Some (js "iVBORw0KGgo=") |};
                   part_text := None |} ]))
           (js "AAAA") (js "image/jpeg") (js "front") standard (js "Sketch") (js "1:1")
           {| world := tt; trace := [] |} {| world := tt; trace := [Invoke] |}
           (js "key") _ eq_refl eq_refl)
           {| mimeType := Some (js "image/png"); data := Some (js "iVBORw0KGgo=") |}).
  exists {| content := Some {| parts := Some
              [ {| inlineData := None; part_text := Some (js "Here is the view.") |};
                {| inlineData := Some {| mimeType := Some (js "image/png");
                                         data := Some (js "iVBORw0KGgo=") |};
                   part_text := None |} ] |} |},
    [],
    {| parts := Some
         [ {| inlineData := None; part_text := Some (js "Here is the view.") |};
           {| inlineData := Some {| mimeType := Some (js "image/png");
                                    data := Some (js "iVBORw0KGgo=") |};
              part_text := None |} ] |},
    [ {| inlineData := None; part_text := Some (js "Here is the view.") |} ],
    {| inlineData := Some {| mimeType := Some (js "image/png");
                             data := Some (js "iVBORw0KGgo=") |};
       part_text := None |},
    [].
  repeat split. constructor; [reflexivity | constructor].
Defined.

(** C7 at the style 'Watercolor' with the aspect ratio left out, on a
    model that answers with a text only. *)
Lemma generateRotatedImage_submits_witness :
  let run :=
    generateRotatedImage (recordingSleep (fun _ w => w)) (Some (js "key"))
      (recording (answering (textResponse (js "no image"))))
      (js "AAAA") (js "image/jpeg") (js "front") pro (Some (js "Watercolor")) None
      (startRecording {| world := tt; trace := [] |}) in
  exists n submittedText,
    (1 <= n <= 4)%nat
    /\ submitted (snd run)
       = repeat {| model := imageModel pro;
                   image_data := js "AAAA";
                   image_mimeType := js "image/jpeg";
                   text_part := submittedText;
                   config := ImageConfig (js "1:1") |} n
    /\ (Some (js "Watercolor") = None
        \/ Some (js "Watercolor") = Some (js "Realistic") ->
        submittedText = js "front")
    /\ (forall name,
          Some (js "Watercolor") = Some name -> name <> js "Realistic" ->
          submittedText
          = js "front" ++ [10%N; 10%N]
            ++ js "IMPORTANT: Render this image in the style of: " ++ name
            ++ js ". Maintain the subject's identity but apply this art style strongly.")
    /\ fst run
       = fst (generateRotatedImage (fun _ w => w) (Some (js "key"))
                (answering (textResponse (js "no image")))
                (js "AAAA") (js "image/jpeg") (js "front") pro
                (Some (js "Watercolor")) None {| world := tt; trace := [] |}).
Proof.
  apply (generateRotatedImage_submits_styled_prompt (fun _ w => w)
           (answering (textResponse (js "no image")))
           (js "key") (js "AAAA") (js "image/jpeg") (js "front") pro
           (Some (js "Watercolor")) None {| world := tt; trace := [] |}).
  discriminate.
Defined.

(** C6 at a page that has read an upload and a client that succeeds. *)
Lemma processImage_three_views_witness :
  let done :=
    fst (processImage threePrompts (rendering 9) (js "iVBORw0KGgo=") (js "image/png")
           uploaded 0%nat) in
  generatedImages done
  = [ {| src := js "data:image/png;base64,front"; prompt := js "front" |};
      {| src := js "data:image/png;base64,side"; prompt := js "side" |};
      {| src := js "data:image/png;base64,top"; prompt := js "top" |} ]
  /\ status done = js "Complete"
  /\ isLoading done = false
  /\ originalImage (resetState done) = None
  /\ generatedImages (resetState done) = []
  /\ isLoading (resetState done) = false
  /\ status (resetState done) = []
  /\ error (resetState done) = [].
Proof.
  destruct (processImage_three_views threePrompts (rendering 9)
              (js "iVBORw0KGgo=") (js "image/png") uploaded
              0%nat 1%nat 2%nat 3%nat 4%nat
              (js "front") (js "side") (js "top")
              (js "data:image/png;base64,front") (js "data:image/png;base64,side")
              (js "data:image/png;base64,top")
              eq_refl eq_refl eq_refl eq_refl)
    as [Himages [_ [_ [Hstatus [Hloading [_ Hreset]]]]]].
  cbv zeta. split; [exact Himages |]. split; [exact Hstatus |].
  split; [exact Hloading |]. exact Hreset.
Defined.

(** C8 at clients whose second, respectively third, render call fails. *)
Lemma processImage_partial_failure_witness :
  (generatedImages
     (fst (processImage threePrompts (rendering 2) (js "iVBORw0KGgo=") (js "image/png")
             uploaded 0%nat))
   = [ {| src := js "data:image/png;base64,front"; prompt := js "front" |} ]
   /\ status
        (fst (processImage threePrompts (rendering 2) (js "iVBORw0KGgo=")
                (js "image/png") uploaded 0%nat))
      = js "Failed")
  /\ (generatedImages
        (fst (processImage threePrompts (rendering 3) (js "iVBORw0KGgo=")
                (js "image/png") uploaded 0%nat))
      = [ {| src := js "data:image/png;base64,front"; prompt := js "front" |};
          {| src := js "data:image/png;base64,side"; prompt := js "side" |} ]
      /\ status
           (fst (processImage threePrompts (rendering 3) (js "iVBORw0KGgo=")
                   (js "image/png") uploaded 0%nat))
         = js "Failed").
Proof.
  split.
  - destruct (proj1 (processImage_partial_failure threePrompts (rendering 2)
                (js "iVBORw0KGgo=") (js "image/png") uploaded 0%nat 1%nat 2%nat
                (js "front") (js "side") (js "top")
                (js "data:image/png;base64,front") [] eq_refl eq_refl)
              unavailable 3%nat eq_refl) as [Himages [Hstatus _]].
    split; [exact Himages | exact Hstatus].
  - destruct (proj2 (processImage_partial_failure threePrompts (rendering 3)
                (js "iVBORw0KGgo=") (js "image/png") uploaded 0%nat 1%nat 2%nat
                (js "front") (js "side") (js "top")
                (js "data:image/png;base64,front") [] eq_refl eq_refl)
              (js "data:image/png;base64,side") 3%nat unavailable 4%nat
              eq_refl eq_refl) as [Himages [Hstatus _]].
    split; [exact Himages | exact Hstatus].
Defined.

End Witnesses.

(** ** Strings: substrings, positions, trimming *)

Section StringFacts.

Lemma startsWith_iff (s p : jsstring) :
  startsWith s p = true <-> exists rest, s = p ++ rest.
Proof.
  revert s. induction p as [| a p IH]; intros s.
  - split; [intros _; exists s; reflexivity | intros _; destruct s; reflexivity].
  - destruct s as [| c s]; cbn [startsWith app].
    + split; [discriminate | intros [rest H]; discriminate].
    + rewrite andb_true_iff, N.eqb_eq, IH. split.
      * intros [-> [rest ->]]. exists rest. reflexivity.
      * intros [rest H]. injection H as -> ->. split; [reflexivity | eauto].
Qed.

Lemma includes_iff (s p : jsstring) :
  includes s p = true <-> exists a b, s = a ++ p ++ b.
Proof.
  induction s as [| c s IH]; cbn [includes]; rewrite orb_true_iff, startsWith_iff.
  - split.
    + intros [[rest H] | H]; [| discriminate]. exists [], rest. exact H.
    + intros [a [b H]]. left. destruct a; [| discriminate]. exists b. exact H.
  - rewrite IH. split.
    + intros [[rest H] | [a [b H]]].
      * exists [], rest. exact H.
      * exists (c :: a), b. rewrite H. reflexivity.
    + intros [[| x a] [b H]].
      * left. exists b. exact H.
      * right. injection H as -> ->. exists a, b. reflexivity.
Qed.

Lemma includes_infix (s a b p : jsstring) :
  includes s p = true -> includes (a ++ s ++ b) p = true.
Proof.
  rewrite !includes_iff. intros [x [y ->]].
  exists (a ++ x), (y ++ b). rewrite <- !app_assoc. reflexivity.
Qed.

Lemma trimStart_suffix (s : jsstring) : exists a, s = a ++ trimStart s.
Proof.
  induction s as [| c s [a IH]]; cbn.
  - exists []. reflexivity.
  - destruct (isWhiteSpace c).
    + exists (c :: a). cbn. rewrite <- IH. reflexivity.
    + exists []. reflexivity.
Qed.

Lemma trim_infix (s : jsstring) : exists a b, s = a ++ trim s ++ b.
Proof.
  unfold trim. destruct (trimStart_suffix s) as [a Ha].
  destruct (trimStart_suffix (rev (trimStart s))) as [b Hb].
  exists a, (rev b). rewrite Ha at 1. f_equal.
  rewrite <- (rev_involutive (trimStart s)) at 1. rewrite Hb at 1.
  rewrite rev_app_distr. reflexivity.
Qed.

Lemma trimStart_keeps (pre : jsstring) (x : N) (rest : jsstring) :
  isWhiteSpace x = false ->
  exists a pre', pre = a ++ pre' /\ trimStart (pre ++ x :: rest) = pre' ++ x :: rest.
Proof.
  intros Hx. induction pre as [| c pre [a [pre' [Hpre IH]]]]; cbn.
  - rewrite Hx. exists [], []. split; reflexivity.
  - destruct (isWhiteSpace c).
    + exists (c :: a), pre'. split; [rewrite Hpre; reflexivity | exact IH].
    + exists [], (c :: pre). split; reflexivity.
Qed.

(** Trimming around a text that starts and ends with characters that are
    not white space keeps the text, with what is left of its surroundings. *)
Lemma trim_keeps (pre mid post : jsstring) (x y : N) :
  isWhiteSpace x = false -> isWhiteSpace y = false ->
  exists a pre' post' b,
    pre = a ++ pre' /\ post = post' ++ b
    /\ trim (pre ++ (x :: mid ++ [y]) ++ post) = pre' ++ (x :: mid ++ [y]) ++ post'.
Proof.
  intros Hx Hy. unfold trim.
  destruct (trimStart_keeps pre x ((mid ++ [y]) ++ post) Hx) as [a [pre' [Hpre H1]]].
  replace (pre ++ (x :: mid ++ [y]) ++ post) with (pre ++ x :: (mid ++ [y]) ++ post)
    by reflexivity.
  rewrite H1.
  replace (rev (pre' ++ x :: (mid ++ [y]) ++ post))
    with (rev post ++ y :: rev (pre' ++ x :: mid)).
  - destruct (trimStart_keeps (rev post) y (rev (pre' ++ x :: mid)) Hy)
      as [b [post' [Hpost H2]]].
    rewrite H2. exists a, pre', (rev post'), (rev b).
    split; [exact Hpre |]. split.
    + rewrite <- (rev_involutive post), Hpost, rev_app_distr. reflexivity.
    + rewrite rev_app_distr. cbn [rev]. rewrite rev_involutive.
      rewrite <- !app_assoc. cbn. rewrite <- !app_assoc. reflexivity.
  - rewrite !rev_app_distr. cbn [rev]. rewrite !rev_app_distr. cbn [rev app].
    rewrite <- !app_assoc. cbn. reflexivity.
Qed.

Lemma trim_all_whitespace (s : jsstring) :
  Forall (fun c => isWhiteSpace c = true) s -> trim s = [].
Proof.
  intros H. unfold trim.
  assert (Hstart : trimStart s = []).
  { induction H as [| c s Hc _ IH]; cbn; [reflexivity |]. rewrite Hc. exact IH. }
  rewrite Hstart. reflexivity.
Qed.

Lemma startsWith_single (x c : N) (s : jsstring) :
  startsWith (x :: s) [c] = (c =? x)%N.
Proof.
  cbn [startsWith]. destruct s; apply andb_true_r.
Qed.

Lemma indexOf_from_first (pre : jsstring) (c : N) (rest : jsstring) (i : Z) :
  Forall (fun x => x <> c) pre ->
  indexOf_from (pre ++ c :: rest) [c] i = i + Z.of_nat (length pre).
Proof.
  intros H. revert i. induction H as [| x pre Hx _ IH]; intros i.
  - cbn [app indexOf_from length]. rewrite startsWith_single, N.eqb_refl. lia.
  - cbn [app indexOf_from]. rewrite startsWith_single. apply N.eqb_neq in Hx.
    rewrite N.eqb_sym, Hx, IH. cbn [length]. lia.
Qed.

Lemma indexOf_from_absent (s : jsstring) (c : N) (i : Z) :
  Forall (fun x => x <> c) s -> indexOf_from s [c] i = -1.
Proof.
  intros H. revert i. induction H as [| x s Hx _ IH]; intros i; [reflexivity |].
  cbn [indexOf_from]. rewrite startsWith_single. apply N.eqb_neq in Hx.
  rewrite N.eqb_sym, Hx. apply IH.
Qed.

Lemma lastIndexOf_from_absent (s : jsstring) (c : N) (i : Z) :
  Forall (fun x => x <> c) s -> lastIndexOf_from s [c] i = -1.
Proof.
  intros H. revert i. induction H as [| x s Hx _ IH]; intros i; [reflexivity |].
  cbn [lastIndexOf_from]. rewrite IH, startsWith_single. apply N.eqb_neq in Hx.
  rewrite N.eqb_sym, Hx. reflexivity.
Qed.

Lemma lastIndexOf_from_last (a : jsstring) (c : N) (post : jsstring) :
  Forall (fun x => x <> c) post ->
  forall i, 0 <= i ->
    lastIndexOf_from (a ++ c :: post) [c] i = i + Z.of_nat (length a).
Proof.
  intros Hpost. induction a as [| x a IH]; intros i Hi.
  - cbn [app lastIndexOf_from length]. rewrite lastIndexOf_from_absent by exact Hpost.
    rewrite startsWith_single, N.eqb_refl. cbn. lia.
  - cbn [app lastIndexOf_from]. rewrite IH by lia.
    replace (i + 1 + Z.of_nat (length a) =? -1) with false
      by (symmetry; apply Z.eqb_neq; lia).
    cbn [length]. lia.
Qed.

Lemma substring_middle (a b c : jsstring) :
  substring (a ++ b ++ c) (Z.of_nat (length a)) (Z.of_nat (length a + length b)) = b.
Proof.
  unfold substring, clamp. rewrite !length_app.
  replace (Z.min (Z.min (Z.max (Z.of_nat (length a)) 0)
                    (Z.of_nat (length a + (length b + length c))))
             (Z.min (Z.max (Z.of_nat (length a + length b)) 0)
                (Z.of_nat (length a + (length b + length c)))))
    with (Z.of_nat (length a)) by lia.
  replace (Z.max (Z.min (Z.max (Z.of_nat (length a)) 0)
                    (Z.of_nat (length a + (length b + length c))))
             (Z.min (Z.max (Z.of_nat (length a + length b)) 0)
                (Z.of_nat (length a + (length b + length c)))))
    with (Z.of_nat (length a + length b)) by lia.
  rewrite Nat2Z.id.
  replace (Z.to_nat (Z.of_nat (length a + length b) - Z.of_nat (length a)))
    with (length b) by lia.
  rewrite skipn_app, skipn_all, Nat.sub_diag. cbn [skipn app].
  rewrite firstn_app, firstn_all, Nat.sub_diag. cbn [firstn]. apply app_nil_r.
Qed.

End StringFacts.

(** ** The two text stages of the prompt parser *)

Section ParseStages.

Import GeminiService.

Lemma fence_units : js "```" = [96; 96; 96]%N.
Proof. reflexivity. Qed.

Lemma removeAll_fence_cons (c : N) (s : jsstring) :
  removeAll (js "```") (c :: s)
  = if startsWith (c :: s) (js "```") then removeAll (js "```") (skipn 2 s)
    else c :: removeAll (js "```") s.
Proof.
  unfold removeAll. cbn [removeAll_aux].
  destruct (startsWith (c :: s) (js "```")) eqn:Hm; [| reflexivity].
  apply startsWith_iff in Hm. destruct Hm as [rest Hm]. rewrite fence_units in Hm.
  injection Hm as -> ->. reflexivity.
Qed.

Lemma removeAll_fence_pair (s : jsstring) :
  startsWith s [96; 96]%N = false ->
  startsWith (removeAll (js "```") s) [96; 96]%N = false.
Proof.
  destruct s as [| x s1]; [reflexivity |].
  intros H. rewrite removeAll_fence_cons.
  destruct (startsWith (x :: s1) (js "```")) eqn:Hm.
  { apply startsWith_iff in Hm. destruct Hm as [rest Hm]. rewrite fence_units in Hm.
    rewrite Hm in H. discriminate. }
  cbn [startsWith] in *. destruct (96 =? x)%N; [| reflexivity]. cbn [andb] in *.
  destruct s1 as [| y t]; [reflexivity |].
  rewrite startsWith_single in H. rewrite removeAll_fence_cons.
  assert (Hy : startsWith (y :: t) (js "```") = false).
  { rewrite fence_units. cbn [startsWith]. rewrite H. reflexivity. }
  rewrite Hy, startsWith_single. exact H.
Qed.

Lemma removeAll_fence_free (n : nat) :
  forall s, (length s <= n)%nat ->
    includes (removeAll (js "```") s) (js "```") = false.
Proof.
  induction n as [| n IH]; intros s Hn; destruct s as [| c s];
    try reflexivity; cbn [length] in Hn; [lia |].
  rewrite removeAll_fence_cons.
  destruct (startsWith (c :: s) (js "```")) eqn:Hm.
  - apply IH. rewrite length_skipn. lia.
  - cbn [includes]. rewrite (IH s) by lia. rewrite orb_false_r.
    rewrite fence_units in *. cbn [startsWith] in *.
    destruct (96 =? c)%N; [| reflexivity]. cbn [andb] in *.
    apply removeAll_fence_pair. exact Hm.
Qed.

(** What the parser hands to the next stage never holds a fence marker,
    whatever the raw text. *)
Theorem stripFences_leaves_no_fence (jsonText : jsstring) :
  includes (stripFences jsonText) (js "```") = false.
Proof.
  unfold stripFences.
  destruct (includes (trim (removeAll (js "```")
              (removeAll_ci (js "```json") jsonText))) (js "```")) eqn:H;
    [| reflexivity].
  destruct (trim_infix (removeAll (js "```") (removeAll_ci (js "```json") jsonText)))
    as [a [b Hab]].
  apply (includes_infix _ a b) in H. rewrite <- Hab in H.
  rewrite (removeAll_fence_free _ _ (le_n _)) in H. discriminate.
Qed.

Lemma lower_backtick (c : N) : c <> 96%N -> (lower 96 =? lower c)%N = false.
Proof.
  intros Hc. apply N.eqb_neq. unfold lower.
  destruct ((65 <=? c)%N && (c <=? 90)%N) eqn:Hup; cbn.
  - apply andb_true_iff in Hup. destruct Hup as [H1 H2].
    apply N.leb_le in H1. lia.
  - intros H. apply Hc. symmetry. exact H.
Qed.

Lemma remove_keeps_plain_text (j tail : jsstring) :
  Forall (fun c => c <> 96%N) j ->
  removeAll (js "```") (j ++ tail) = j ++ removeAll (js "```") tail
  /\ removeAll_ci (js "```json") (j ++ tail) = j ++ removeAll_ci (js "```json") tail.
Proof.
  induction 1 as [| c j Hc _ [IH1 IH2]]; [split; reflexivity |].
  cbn [app]. split.
  - rewrite removeAll_fence_cons.
    replace (startsWith (c :: j ++ tail) (js "```")) with false.
    + rewrite IH1. reflexivity.
    + rewrite fence_units. cbn [startsWith]. apply N.eqb_neq in Hc.
      rewrite N.eqb_sym, Hc. reflexivity.
  - unfold removeAll_ci in *. cbn [removeAll_aux].
    replace (startsWith_ci (c :: j ++ tail) (js "```json")) with false.
    + rewrite IH2. reflexivity.
    + change (js "```json") with [96; 96; 96; 106; 115; 111; 110]%N.
      cbn [startsWith_ci]. rewrite (lower_backtick c Hc). reflexivity.
Qed.

Lemma stripFences_plain_text (j : jsstring) :
  Forall (fun c => c <> 96%N) j -> stripFences j = trim j.
Proof.
  intros Hj. unfold stripFences.
  destruct (remove_keeps_plain_text j [] Hj) as [H1 H2].
  change (removeAll (js "```") []) with (@nil N) in H1.
  change (removeAll_ci (js "```json") []) with (@nil N) in H2.
  rewrite !app_nil_r in H1, H2. rewrite H2, H1. reflexivity.
Qed.

(** The [try] block sees the raw text only through the two text stages. *)
Lemma parsePrompts_by_stages (a b : option jsstring) :
  extractObject (stripFences (orEmpty a)) = extractObject (stripFences (orEmpty b)) ->
  parsePrompts a = parsePrompts b /\ Part001.parsePrompts a = Part001.parsePrompts b.
Proof.
  intros H. unfold parsePrompts, Part001.parsePrompts, parseBlock. cbv zeta.
  rewrite H. split; reflexivity.
Qed.

Lemma startsWith_ci_prefix (p x rest : jsstring) :
  map lower x = map lower p -> startsWith_ci (x ++ rest) p = true.
Proof.
  revert x. induction p as [| a p IH]; intros x H.
  - destruct (x ++ rest); reflexivity.
  - destruct x as [| c x]; [discriminate |]. injection H as Hc Hx.
    cbn [app startsWith_ci]. rewrite Hc, N.eqb_refl. apply IH. exact Hx.
Qed.

Lemma removeAll_aux_skip (matches : jsstring -> bool) (plen : nat)
    (x rest : jsstring) :
  removeAll_aux matches plen (length x) (x ++ rest) = removeAll_aux matches plen 0 rest.
Proof.
  induction x as [| c x IH]; [reflexivity | exact IH].
Qed.

(** An opening fence with its tag, in any case, is removed as a whole. *)
Lemma removeAll_ci_opening (tag rest : jsstring) :
  map lower tag = js "json" ->
  removeAll_ci (js "```json") (js "```" ++ tag ++ rest)
  = removeAll_ci (js "```json") rest.
Proof.
  intros Htag.
  assert (Hlen : length tag = 4%nat).
  { apply (f_equal (@length N)) in Htag. rewrite length_map in Htag. exact Htag. }
  assert (Hm : startsWith_ci ((js "```" ++ tag) ++ rest) (js "```json") = true).
  { apply startsWith_ci_prefix. rewrite map_app, Htag. reflexivity. }
  rewrite <- app_assoc in Hm. unfold removeAll_ci.
  rewrite fence_units in *. cbn [app] in *. cbn [removeAll_aux]. rewrite Hm.
  change (length (js "```json") - 1)%nat with (length [96; 96]%N + 4)%nat.
  cbn [length Nat.add removeAll_aux]. rewrite <- Hlen.
  apply removeAll_aux_skip.
Qed.

(** Three backticks that are not followed by the tag stay in the first
    pass. *)
Lemma removeAll_ci_plain_opening (c : N) (rest : jsstring) :
  c <> 96%N -> lower c <> 106%N ->
  removeAll_ci (js "```json") (js "```" ++ c :: rest)
  = js "```" ++ removeAll_ci (js "```json") (c :: rest).
Proof.
  intros H96 H106. apply lower_backtick in H96.
  assert (Hj : (lower 106 =? lower c)%N = false)
    by (apply N.eqb_neq; intros E; apply H106; symmetry; exact E).
  unfold removeAll_ci. rewrite fence_units.
  change (js "```json") with [96; 96; 96; 106; 115; 111; 110]%N.
  cbn [app length].
  repeat match goal with
    | |- context [removeAll_aux ?m ?n 0 (96%N :: ?t)] =>
        replace (removeAll_aux m n 0 (96%N :: t))
          with (96%N :: removeAll_aux m n 0 t);
        [| cbn [removeAll_aux startsWith_ci]; rewrite ?H96, ?Hj;
           cbn [andb]; rewrite ?andb_false_r; reflexivity ]
    end.
  reflexivity.
Qed.

(** A fenced answer is parsed as the answer itself: for a text without
    backtick between an opening fence, with the tag [json] in any case or
    without tag, and a closing fence, both copies of the parser give what
    they give on the text alone. *)
Theorem parsePrompts_ignores_fences (tag j : jsstring) :
  Forall (fun c => c <> 96%N) j ->
  (map lower tag = js "json"
   \/ tag = [] /\ exists c j', j = c :: j' /\ lower c <> 106%N) ->
  stripFences (js "```" ++ tag ++ j ++ js "```") = trim j
  /\ parsePrompts (Some (js "```" ++ tag ++ j ++ js "```")) = parsePrompts (Some j)
  /\ Part001.parsePrompts (Some (js "```" ++ tag ++ j ++ js "```"))
     = Part001.parsePrompts (Some j).
Proof.
  intros Hj Htag.
  destruct (remove_keeps_plain_text j (js "```") Hj) as [H1 H2].
  change (removeAll (js "```") (js "```")) with (@nil N) in H1.
  change (removeAll_ci (js "```json") (js "```")) with (js "```") in H2.
  rewrite app_nil_r in H1.
  assert (Hstrip : stripFences (js "```" ++ tag ++ j ++ js "```") = trim j).
  { unfold stripFences. destruct Htag as [Htag | [-> [c [j' [-> Hc]]]]].
    - rewrite (removeAll_ci_opening tag _ Htag), H2, H1. reflexivity.
    - cbn [app] in *. inversion Hj as [| c0 j0 Hc96 Hj' E]; subst.
      rewrite (removeAll_ci_plain_opening c _ Hc96 Hc), H2.
      rewrite fence_units at 2. cbn [app]. rewrite removeAll_fence_cons.
      replace (startsWith (96%N :: 96%N :: 96%N :: c :: j' ++ js "```") (js "```"))
        with true by reflexivity.
      cbn [skipn]. rewrite H1. reflexivity. }
  split; [exact Hstrip |].
  apply parsePrompts_by_stages. cbn [orEmpty].
  rewrite Hstrip, (stripFences_plain_text j Hj). reflexivity.
Qed.

(** An absent text, an empty text and a text of white space only are not
    JSON: [geminiService.ts] throws the invalid-instructions error and
    [part_001] the malformed-response error. *)
Theorem parsePrompts_blank_text (response_text : option jsstring) :
  Forall (fun c => isWhiteSpace c = true) (orEmpty response_text) ->
  parsePrompts response_text = Throw invalidInstructions
  /\ Part001.parsePrompts response_text = Throw malformed.
Proof.
  intros Hws.
  assert (Hplain : Forall (fun c => c <> 96%N) (orEmpty response_text)).
  { apply Forall_forall. intros c Hin Hc. subst c.
    apply (proj1 (Forall_forall _ _) Hws) in Hin. discriminate. }
  assert (Hempty : stripFences (orEmpty response_text) = []).
  { rewrite (stripFences_plain_text _ Hplain). apply trim_all_whitespace. exact Hws. }
  unfold parsePrompts, Part001.parsePrompts, parseBlock. cbv zeta.
  rewrite Hempty. split; reflexivity.
Qed.

Lemma extractObject_cut (pre mid post : jsstring) :
  Forall (fun c => c <> 123%N) pre ->
  Forall (fun c => c <> 125%N) post ->
  extractObject (pre ++ (123%N :: mid ++ [125%N]) ++ post) = 123%N :: mid ++ [125%N].
Proof.
  intros Hpre Hpost.
  assert (Hfirst : indexOf (pre ++ (123%N :: mid ++ [125%N]) ++ post) [123%N]
                   = Z.of_nat (length pre)).
  { unfold indexOf.
    replace (pre ++ (123%N :: mid ++ [125%N]) ++ post)
      with (pre ++ 123%N :: (mid ++ [125%N]) ++ post) by reflexivity.
    rewrite indexOf_from_first by exact Hpre. lia. }
  assert (Hlast : lastIndexOf (pre ++ (123%N :: mid ++ [125%N]) ++ post) [125%N]
                  = Z.of_nat (length pre + S (length mid))).
  { unfold lastIndexOf.
    replace (pre ++ (123%N :: mid ++ [125%N]) ++ post)
      with ((pre ++ 123%N :: mid) ++ 125%N :: post)
      by (rewrite <- !app_assoc; cbn; rewrite <- !app_assoc; reflexivity).
    rewrite lastIndexOf_from_last by (try exact Hpost; lia).
    rewrite length_app. cbn [length]. lia. }
  unfold extractObject. cbv zeta.
  change (js "{") with [123%N]. change (js "}") with [125%N].
  rewrite Hfirst, Hlast.
  replace (Z.of_nat (length pre) =? -1) with false
    by (symmetry; apply Z.eqb_neq; lia).
  replace (Z.of_nat (length pre + S (length mid)) =? -1) with false
    by (symmetry; apply Z.eqb_neq; lia).
  replace (Z.of_nat (length pre + S (length mid)) >=? Z.of_nat (length pre))
    with true by (symmetry; apply Z.geb_le; lia).
  cbn [negb andb].
  replace (Z.of_nat (length pre + S (length mid)) + 1)
    with (Z.of_nat (length pre + length (123%N :: mid ++ [125%N])))
    by (cbn [length]; rewrite length_app; cbn [length]; lia).
  apply substring_middle.
Qed.

(** The brace stage: a text without [{] or without [}] is left whole; a
    text [pre ++ body ++ post] whose [body] starts with [{] and ends with
    [}], with no [{] before it and no [}] after it, is cut to [body]. *)
Theorem extractObject_discards_commentary (pre mid post : jsstring) :
  (Forall (fun c => c <> 123%N) pre -> extractObject pre = pre)
  /\ (Forall (fun c => c <> 125%N) post -> extractObject post = post)
  /\ (Forall (fun c => c <> 123%N) pre ->
      Forall (fun c => c <> 125%N) post ->
      extractObject (pre ++ (123%N :: mid ++ [125%N]) ++ post)
      = 123%N :: mid ++ [125%N]).
Proof.
  split; [| split].
  - intros H. unfold extractObject, indexOf.
    change (js "{") with [123%N]. rewrite indexOf_from_absent by exact H. reflexivity.
  - intros H. unfold extractObject, lastIndexOf.
    change (js "}") with [125%N]. rewrite lastIndexOf_from_absent by exact H.
    rewrite andb_false_r. reflexivity.
  - apply extractObject_cut.
Qed.

(** Commentary around the JSON object does not change the result: for a
    text without backtick, made of an object text between a lead without
    [{] and a trail without [}], both copies of the parser give what they
    give on the object text alone. *)
Theorem parsePrompts_ignores_commentary (pre mid post : jsstring) :
  Forall (fun c => c <> 96%N /\ c <> 123%N) pre ->
  Forall (fun c => c <> 96%N) mid ->
  Forall (fun c => c <> 96%N /\ c <> 125%N) post ->
  parsePrompts (Some (pre ++ (123%N :: mid ++ [125%N]) ++ post))
  = parsePrompts (Some (123%N :: mid ++ [125%N]))
  /\ Part001.parsePrompts (Some (pre ++ (123%N :: mid ++ [125%N]) ++ post))
     = Part001.parsePrompts (Some (123%N :: mid ++ [125%N])).
Proof.
  intros Hpre Hmid Hpost.
  assert (Hbody : Forall (fun c => c <> 96%N) (123%N :: mid ++ [125%N])).
  { constructor; [discriminate |]. apply Forall_app. split; [exact Hmid |].
    constructor; [discriminate | constructor]. }
  assert (Hall : Forall (fun c => c <> 96%N)
                   (pre ++ (123%N :: mid ++ [125%N]) ++ post)).
  { apply Forall_app. split; [eapply Forall_impl; [| exact Hpre]; cbn; tauto |].
    apply Forall_app. split; [exact Hbody |].
    eapply Forall_impl; [| exact Hpost]; cbn; tauto. }
  apply parsePrompts_by_stages. cbn [orEmpty].
  rewrite (stripFences_plain_text _ Hall), (stripFences_plain_text _ Hbody).
  destruct (trim_keeps pre mid post 123 125 eq_refl eq_refl)
    as [a [pre' [post' [b [Ea [Eb Htrim]]]]]].
  destruct (trim_keeps [] mid [] 123 125 eq_refl eq_refl)
    as [a0 [pre0 [post0 [b0 [Ea0 [Eb0 Htrim0]]]]]].
  cbn [app] in Htrim0. rewrite app_nil_r in Htrim0.
  symmetry in Ea0. apply app_eq_nil in Ea0. destruct Ea0 as [_ ->].
  symmetry in Eb0. apply app_eq_nil in Eb0. destruct Eb0 as [-> _].
  cbn [app] in Htrim0. rewrite app_nil_r in Htrim0.
  rewrite Htrim, Htrim0.
  assert (Hpre' : Forall (fun c => c <> 123%N) pre').
  { rewrite Ea in Hpre. apply Forall_app in Hpre. destruct Hpre as [_ H].
    eapply Forall_impl; [| exact H]; cbn; tauto. }
  assert (Hpost' : Forall (fun c => c <> 125%N) post').
  { rewrite Eb in Hpost. apply Forall_app in Hpost. destruct Hpost as [H _].
    eapply Forall_impl; [| exact H]; cbn; tauto. }
  pose proof (extractObject_cut pre' mid post' Hpre' Hpost') as H1.
  pose proof (extractObject_cut [] mid [] (Forall_nil _) (Forall_nil _)) as H2.
  rewrite H1. cbn [app] in H2.
  rewrite app_nil_r in H2. rewrite H2. reflexivity.
Qed.

End ParseStages.

(** ** More on the retry wrapper *)

Section RetryShape.

Import GeminiService Scenario.

Context {W T : Type}.
Variable sleep : Z -> W -> W.
Variable fn : W -> outcome T * W.

(** Every run of the wrapper: some [n] failed attempts within the budget,
    each followed by its warning and its wait, then a last attempt whose
    outcome is the result. *)
Lemma retry_run_shape (budget : nat) :
  forall (retries delay : Z) (s : St),
    Z.to_nat retries = budget ->
    exists (n : nat) (w w' : W),
      (n <= budget)%nat
      /\ fn w = (fst (retryWithBackoff sleep fn retries delay s), w')
      /\ snd (retryWithBackoff sleep fn retries delay s)
         = {| world := w'; trace := trace s ++ backoffTrace n retries delay |}
      /\ (forall e,
            fst (retryWithBackoff sleep fn retries delay s) = Throw e ->
            isOverloaded e = true -> n = budget).
Proof.
  induction budget as [| budget IH]; intros retries delay s Hb;
    rewrite retryWithBackoff_step; unfold invoke;
    destruct (fn (world s)) as [[v | error] w1] eqn:Hfn.
  - exists 0%nat, (world s), w1.
    split; [lia | split; [exact Hfn | split; [reflexivity | discriminate]]].
  - assert (Hz : (0 <? retries) = false) by (apply Z.ltb_ge; lia).
    rewrite Hz. cbn [andb]. exists 0%nat, (world s), w1.
    split; [lia | split; [exact Hfn | split; [reflexivity | reflexivity]]].
  - exists 0%nat, (world s), w1.
    split; [lia | split; [exact Hfn | split; [reflexivity | discriminate]]].
  - destruct ((0 <? retries) && isOverloaded error) eqn:Hgo.
    + apply andb_true_iff in Hgo. destruct Hgo as [Hpos _]. apply Z.ltb_lt in Hpos.
      destruct (IH (retries - 1) (delay * 2)
                  (setTimeout sleep delay
                     (console_warn delay retries
                        {| world := w1; trace := trace s ++ [Invoke] |})))
        as [n [w [w' [Hn [Hlast [Hend Hfull]]]]]]; [lia |].
      exists (S n), w, w'. split; [lia |]. split; [exact Hlast |]. split.
      * rewrite Hend. cbn [setTimeout console_warn log trace world backoffTrace].
        rewrite <- !app_assoc. reflexivity.
      * intros e He Ho. f_equal. exact (Hfull e He Ho).
    + exists 0%nat, (world s), w1.
      split; [lia | split; [exact Hfn | split; [reflexivity |]]].
      cbn [fst]. intros e He Ho. injection He as ->. rewrite Ho, andb_true_r in Hgo.
      apply Z.ltb_ge in Hgo. lia.
Qed.

(** The trace the wrapper adds, for any operation, budget and base delay:
    [n] retries with [n] at most the budget, the k-th after a wait of
    [delay * 2^(k-1)], and [n + 1] invocations. *)
Theorem retry_trace_shape (retries delay : Z) (s : St) :
  exists n,
    (n <= Z.to_nat retries)%nat
    /\ trace (snd (retryWithBackoff sleep fn retries delay s))
       = trace s ++ backoffTrace n retries delay
    /\ delays (backoffTrace n retries delay) = doubling delay n
    /\ invocations (backoffTrace n retries delay) = S n.
Proof.
  destruct (retry_run_shape (Z.to_nat retries) retries delay s eq_refl)
    as [n [w [w' [Hn [_ [Hend _]]]]]].
  exists n. split; [exact Hn |]. split; [rewrite Hend; reflexivity |]. split.
  - pose proof (backoffTrace_delays n retries delay 0) as Hd.
    cbn [Z.of_nat] in Hd. rewrite Z.pow_0_r, Z.mul_1_r in Hd. exact Hd.
  - apply backoffTrace_invocations.
Qed.

(** The wrapper invents nothing: its result, value or error, is the
    outcome of one invocation of the operation, the last one, and it leaves
    the environment as that invocation left it. *)
Theorem retry_result_is_last_outcome (retries delay : Z) (s : St) :
  exists w,
    fn w = (fst (retryWithBackoff sleep fn retries delay s),
            world (snd (retryWithBackoff sleep fn retries delay s))).
Proof.
  destruct (retry_run_shape (Z.to_nat retries) retries delay s eq_refl)
    as [n [w [w' [_ [Hlast [Hend _]]]]]].
  exists w. rewrite Hend. exact Hlast.
Qed.

(** An overload error leaves the wrapper only when the budget is used up:
    after exactly [retries + 1] invocations. *)
Theorem retry_overload_escapes_after_budget (retries delay : Z) (s : St)
    (e : thrown) :
  0 <= retries ->
  fst (retryWithBackoff sleep fn retries delay s) = Throw e ->
  isOverloaded e = true ->
  exists tr,
    trace (snd (retryWithBackoff sleep fn retries delay s)) = trace s ++ tr
    /\ Z.of_nat (invocations tr) = retries + 1
    /\ delays tr = doubling delay (Z.to_nat retries).
Proof.
  intros Hr He Ho.
  destruct (retry_run_shape (Z.to_nat retries) retries delay s eq_refl)
    as [n [w [w' [_ [_ [Hend Hfull]]]]]].
  specialize (Hfull e He Ho). subst n.
  exists (backoffTrace (Z.to_nat retries) retries delay). split; [| split].
  - rewrite Hend. reflexivity.
  - rewrite backoffTrace_invocations. lia.
  - pose proof (backoffTrace_delays (Z.to_nat retries) retries delay 0) as Hd.
    cbn [Z.of_nat] in Hd. rewrite Z.pow_0_r, Z.mul_1_r in Hd. exact Hd.
Qed.

Lemma doubling_sum (delay : Z) (n : nat) :
  fold_right Z.add 0 (doubling delay n) = delay * (2 ^ Z.of_nat n - 1).
Proof.
  unfold doubling. induction n as [| n IH].
  - cbn. ring.
  - rewrite seq_S, map_app, fold_right_app. cbn [map fold_right Nat.add].
    assert (Hshift : forall (l : list Z) a,
               fold_right Z.add a l = fold_right Z.add 0 l + a).
    { induction l as [| x l IHl]; intros a; cbn; [ring |]. rewrite IHl. ring. }
    rewrite Hshift, IH, Nat2Z.inj_succ, Z.pow_succ_r by lia. ring.
Qed.

(** The time the wrapper spends waiting is bounded by the budget: at most
    [delay * (2^retries - 1)] ms in all, 14000 ms at the defaults. *)
Theorem retry_total_wait_bounded (retries delay : Z) (s : St) :
  0 <= retries -> 0 <= delay ->
  exists tr,
    trace (snd (retryWithBackoff sleep fn retries delay s)) = trace s ++ tr
    /\ 0 <= fold_right Z.add 0 (delays tr) <= delay * (2 ^ retries - 1).
Proof.
  intros Hr Hd.
  destruct (retry_run_shape (Z.to_nat retries) retries delay s eq_refl)
    as [n [w [w' [Hn [_ [Hend _]]]]]].
  exists (backoffTrace n retries delay). split; [rewrite Hend; reflexivity |].
  pose proof (backoffTrace_delays n retries delay 0) as Hdel.
  cbn [Z.of_nat] in Hdel. rewrite Z.pow_0_r, Z.mul_1_r in Hdel.
  fold (doubling delay n) in Hdel. rewrite Hdel, doubling_sum.
  assert (Hpow : 1 <= 2 ^ Z.of_nat n <= 2 ^ retries).
  { split.
    - apply (Z.pow_le_mono_r 2 0 (Z.of_nat n)); lia.
    - apply Z.pow_le_mono_r; lia. }
  nia.
Qed.

End RetryShape.

(** ** The two operations of the generation client as a whole *)

Section ServiceFacts.

Import GeminiService Scenario.

Context {W : Type}.
Variable sleep : Z -> W -> W.
Variable API_KEY : option jsstring.
Variable generateContent : jsstring -> Request -> W -> outcome GenerateContentResponse * W.
Variable getPovPrompt : bool -> jsstring.

Variables base64Image mimeType0 prompt : jsstring.
Variable isObjectRotationOnly : bool.
Variable mode : ModelMode.
Variables style aspectRatio : option jsstring.

#[local] Abbreviation prompts :=
  (getRotationPrompts sleep API_KEY generateContent getPovPrompt
     base64Image mimeType0 isObjectRotationOnly mode).

#[local] Abbreviation image :=
  (generateRotatedImage sleep API_KEY generateContent
     base64Image mimeType0 prompt mode style aspectRatio).

Lemma getAI_cases :
  (getAI API_KEY = Throw (newError "API_KEY environment variable is not set")
   /\ (API_KEY = None \/ API_KEY = Some []))
  \/ (exists c key, API_KEY = Some (c :: key) /\ getAI API_KEY = Return (c :: key)).
Proof.
  unfold getAI. destruct API_KEY as [[| c key] |].
  - left. split; [reflexivity | right; reflexivity].
  - right. exists c, key. split; reflexivity.
  - left. split; [reflexivity | left; reflexivity].
Qed.

(** Without a key (absent or empty) neither operation reaches the model:
    both throw the configuration error and leave the environment and the
    trace as they were. *)
Theorem service_requires_key (s : St) :
  API_KEY = None \/ API_KEY = Some [] ->
  prompts s = (Throw (newError "API_KEY environment variable is not set"), s)
  /\ image s = (Throw (newError "API_KEY environment variable is not set"), s).
Proof.
  unfold getRotationPrompts, generateRotatedImage, getAI.
  intros [-> | ->]; split; reflexivity.
Qed.

Lemma default_retry_budget {T} (fn : W -> outcome T * W) (s : St) :
  exists n,
    (n <= 3)%nat
    /\ trace (snd (retryWithBackoff_default sleep fn s))
       = trace s ++ backoffTrace n 3 2000.
Proof.
  unfold retryWithBackoff_default.
  destruct (retry_run_shape sleep fn 3 3 2000 s eq_refl)
    as [n [w [w' [Hn [_ [Hend _]]]]]].
  exists n. split; [exact Hn | rewrite Hend; reflexivity].
Qed.

(** Each operation invokes the model at most 4 times, and the waits
    between the invocations are the first of 2000, 4000, 8000 ms. *)
Theorem service_call_budget (s : St) :
  (exists tr,
      trace (snd (prompts s)) = trace s ++ tr
      /\ (invocations tr <= 4)%nat
      /\ exists n, (n <= 3)%nat /\ delays tr = firstn n [2000; 4000; 8000])
  /\ (exists tr,
        trace (snd (image s)) = trace s ++ tr
        /\ (invocations tr <= 4)%nat
        /\ exists n, (n <= 3)%nat /\ delays tr = firstn n [2000; 4000; 8000]).
Proof.
  assert (Hshape : forall n, (n <= 3)%nat ->
             (invocations (backoffTrace n 3 2000) <= 4)%nat
             /\ delays (backoffTrace n 3 2000) = firstn n [2000; 4000; 8000]).
  { intros n Hn. destruct n as [| [| [| [| n]]]]; try lia; split; cbn; try lia; reflexivity. }
  assert (Hidle : exists tr : list event,
             trace s = trace s ++ tr /\ (invocations tr <= 4)%nat
             /\ exists n, (n <= 3)%nat /\ delays tr = firstn n [2000; 4000; 8000]).
  { exists []. rewrite app_nil_r. split; [reflexivity |]. split; [cbn; lia |].
    exists 0%nat. split; [lia | reflexivity]. }
  unfold getRotationPrompts, generateRotatedImage.
  destruct (getAI API_KEY) as [key | e]; [| split; exact Hidle]. split.
  - match goal with
    | |- context [retryWithBackoff_default sleep ?f s] =>
        destruct (default_retry_budget f s) as [n [Hn Htr]];
        destruct (retryWithBackoff_default sleep f s) as [[response | e] s']
    end; cbn [snd] in *;
      exists (backoffTrace n 3 2000); (split; [exact Htr |]);
      destruct (Hshape n Hn) as [Hi Hd]; (split; [exact Hi |]);
      exists n; split; assumption.
  - match goal with
    | |- context [retryWithBackoff_default sleep ?f s] =>
        destruct (default_retry_budget f s) as [n [Hn Htr]];
        destruct (retryWithBackoff_default sleep f s) as [[response | e] s']
    end; cbn [snd] in *;
      exists (backoffTrace n 3 2000); (split; [exact Htr |]);
      destruct (Hshape n Hn) as [Hi Hd]; (split; [exact Hi |]);
      exists n; split; assumption.
Qed.

(** The errors of [getRotationPrompts]: the configuration error, an error
    thrown by the model call itself, or one of the two errors of the
    parsing; nothing else, and no error of the model call is rewritten. *)
Theorem getRotationPrompts_errors (s : St) (e : thrown) :
  fst (prompts s) = Throw e ->
  e = newError "API_KEY environment variable is not set"
  \/ e = invalidInstructions
  \/ e = malformed
  \/ exists key w w',
       API_KEY = Some key
       /\ generateContent key
            (promptsRequest getPovPrompt base64Image mimeType0 isObjectRotationOnly mode) w
          = (Throw e, w').
Proof.
  unfold getRotationPrompts.
  destruct getAI_cases as [[Hkey _] | [c [key [Hsome Hkey]]]]; rewrite Hkey.
  - cbn. intros H. injection H as <-. left. reflexivity.
  - unfold retryWithBackoff_default.
    match goal with
    | |- context [retryWithBackoff sleep ?f 3 2000 s] =>
        destruct (retry_run_shape sleep f 3 3 2000 s eq_refl)
          as [n [w [w0 [_ [Hlast [Hend _]]]]]];
        destruct (retryWithBackoff sleep f 3 2000 s) as [[response | e'] s']
    end; cbn [fst snd] in *; subst s'; cbn [world].
    + unfold parsePrompts. destruct (parseBlock (text response)); intros H;
        try discriminate; injection H as <-.
      * right. right. left. reflexivity.
      * right. left. reflexivity.
    + intros H. injection H as <-. right. right. right.
      exists (c :: key), w, w0. split; [exact Hsome | exact Hlast].
Qed.

(** The errors of [generateRotatedImage]: the configuration error, an
    error thrown by the model call itself, or the no-image error. *)
Theorem generateRotatedImage_errors (s : St) (e : thrown) :
  fst (image s) = Throw e ->
  e = newError "API_KEY environment variable is not set"
  \/ e = noImage
  \/ exists key request w w',
       API_KEY = Some key /\ generateContent key request w = (Throw e, w').
Proof.
  unfold generateRotatedImage.
  destruct getAI_cases as [[Hkey _] | [c [key [Hsome Hkey]]]]; rewrite Hkey.
  - cbn. intros H. injection H as <-. left. reflexivity.
  - unfold retryWithBackoff_default.
    match goal with
    | |- context [retryWithBackoff sleep (generateContent ?k ?r) 3 2000 s] =>
        destruct (retry_run_shape sleep (generateContent k r) 3 3 2000 s eq_refl)
          as [n [w [w0 [_ [Hlast [Hend _]]]]]];
        destruct (retryWithBackoff sleep (generateContent k r) 3 2000 s)
          as [[response | e'] s'];
        set (request := r) in *
    end; cbn [fst snd] in *; subst s'; cbn [world].
    + unfold imageOfResponse.
      destruct (findImagePart response) as [part |];
        [destruct (inlineData part) |]; intros H; try discriminate;
        injection H as <-; right; left; reflexivity.
    + intros H. injection H as <-. right. right.
      exists (c :: key), request, w, w0. split; [exact Hsome | exact Hlast].
Qed.

End ServiceFacts.

(** ** Every run of [processImage] *)

Section RunFacts.

Import GeminiService App Page.

Context {W : Type}.
Variable getRotationPrompts :
  jsstring -> jsstring -> bool -> ModelMode -> W -> outcome (list jsstring) * W.
Variable generateRotatedImage :
  jsstring -> jsstring -> jsstring -> ModelMode -> jsstring -> jsstring ->
  W -> outcome jsstring * W.

(** The loop: it stores the pairs it has generated so far, in order, each
    with the prompt of its index, and stops at the first failure. *)
Lemma renderViews_spec (base64Image mimeType0 : jsstring) (prompts : list jsstring)
    (mode : ModelMode) (style ratio : jsstring) (todo : nat) :
  forall (i : nat) (newImages : list GeneratedImage) (st : AppState) (w : W)
         (r : outcome unit) (st' : AppState) (w' : W),
    renderViews generateRotatedImage todo i base64Image mimeType0 prompts mode
      style ratio newImages st w = (r, st', w') ->
    exists added,
      generatedImages st'
      = match added with [] => generatedImages st | _ :: _ => newImages ++ added end
      /\ map prompt added = map (fun k => nth k prompts []) (seq i (length added))
      /\ match r with
         | Return _ => length added = todo
         | Throw _ => (length added < todo)%nat
         end
      /\ sameSettings st' st
      /\ hasApiKey st' = hasApiKey st
      /\ isLoading st' = isLoading st
      /\ error st' = error st.
Proof.
  induction todo as [| todo IH]; intros i newImages st w r st' w'; cbn [renderViews].
  - intros H. injection H as <- <- <-. exists []. cbn. repeat split.
  - destruct (generateRotatedImage base64Image mimeType0 (nth i prompts []) mode
                style ratio w) as [[generatedImage | e] w1].
    + intros H. apply IH in H. destruct H as [added [Himgs [Hprompts [Hlen Hframe]]]].
      exists ({| src := generatedImage; prompt := nth i prompts [] |} :: added).
      split; [| split; [| split]].
      * rewrite Himgs. destruct added; cbn; [reflexivity |].
        rewrite <- app_assoc. reflexivity.
      * cbn [map length seq prompt]. rewrite Hprompts. reflexivity.
      * destruct r; cbn [length]; lia.
      * exact Hframe.
    + intros H. injection H as <- <- <-. exists []. cbn.
      repeat split. lia.
Qed.

Variables base64Image mimeType0 : jsstring.
Variable st : AppState.
Variable w : W.

Let run : AppState * W :=
  processImage getRotationPrompts generateRotatedImage base64Image mimeType0 st w.

Let body : outcome unit * AppState * W :=
  processBody getRotationPrompts generateRotatedImage base64Image mimeType0 st w.

Lemma handleFailure_frame (err : thrown) (mode : ModelMode) (x : AppState) :
  sameSettings (handleFailure err mode x) x
  /\ isLoading (handleFailure err mode x) = isLoading x
  /\ generatedImages (handleFailure err mode x) = generatedImages x
  /\ status (handleFailure err mode x) = js "Failed".
Proof.
  unfold handleFailure, sameSettings. destruct err as [code message | code message].
  - destruct (includes message (js "RESOURCE_EXHAUSTED") || includes message (js "429"));
      [repeat split |].
    destruct (includes message (js "503") || includes message (js "overloaded"));
      [repeat split |].
    destruct (includes message (js "Requested entity was not found"));
      [destruct mode |]; repeat split.
  - repeat split.
Qed.

(** What the [try] block leaves behind. *)
Lemma processBody_spec :
  exists added,
    generatedImages (snd (fst body))
    = match added with [] => generatedImages st | _ :: _ => added end
    /\ (length added <= 3)%nat
    /\ sameSettings (snd (fst body)) st
    /\ hasApiKey (snd (fst body)) = hasApiKey st
    /\ isLoading (snd (fst body)) = isLoading st
    /\ error (snd (fst body)) = []
    /\ match fst (fst body) with
       | Return _ =>
           status (snd (fst body)) = js "Complete"
           /\ length added = 3%nat
           /\ exists prompts w1,
                getRotationPrompts base64Image mimeType0 (isObjectRotationOnly st)
                  (modelMode st) w = (Return prompts, w1)
                /\ map prompt added = firstn 3 prompts
       | Throw _ => (length added < 3)%nat
       end.
Proof.
  unfold body, processBody.
  destruct (getRotationPrompts base64Image mimeType0 (isObjectRotationOnly st)
              (modelMode st) w) as [[prompts | e] w1].
  - destruct (length prompts <? 3)%nat eqn:Hshort.
    + exists []. cbn. repeat split; lia.
    + apply Nat.ltb_ge in Hshort.
      destruct (renderViews generateRotatedImage 3 0 base64Image mimeType0 prompts
                  (modelMode st) (selectedStyle st) (selectedRatio st) []
                  (setStatus (js "Analyzing scene geometry...") (setError [] st)) w1)
        as [[r st1] w2] eqn:Hloop.
      apply renderViews_spec in Hloop.
      destruct Hloop as [added [Himgs [Hprompts [Hlen [Hsame [Hkey [Hload Herr]]]]]]].
      exists added. destruct r as [u | e]; cbn [fst snd].
      * cbn [generatedImages setStatus sameSettings originalImage modelMode
             isObjectRotationOnly selectedStyle selectedRatio hasApiKey isLoading error]
          in *.
        split; [exact Himgs |]. split; [lia |]. split; [exact Hsame |].
        split; [exact Hkey |]. split; [exact Hload |]. split; [exact Herr |].
        split; [reflexivity |]. split; [exact Hlen |].
        exists prompts, w1. split; [reflexivity |].
        rewrite Hprompts, Hlen. cbn [seq map].
        destruct prompts as [| p1 [| p2 [| p3 rest]]]; cbn in Hshort; try lia.
        reflexivity.
      * split; [exact Himgs |]. split; [lia |]. split; [exact Hsame |].
        split; [exact Hkey |]. split; [exact Hload |]. split; [exact Herr |].
        exact Hlen.
  - exists []. cbn. repeat split; lia.
Qed.

Lemma run_ends :
  sameSettings (fst run) st
  /\ isLoading (fst run) = false
  /\ (status (fst run) = js "Complete" /\ error (fst run) = []
      \/ status (fst run) = js "Failed").
Proof.
  destruct processBody_spec as [added [_ [_ [Hsame [_ [_ [Herr Hres]]]]]]].
  unfold run, processImage. fold body.
  destruct body as [[[u | e] st1] w1]; cbn [fst snd] in *.
  - split; [exact Hsame |]. split; [reflexivity |]. left.
    destruct Hres as [Hst _]. split; [exact Hst | exact Herr].
  - destruct (handleFailure_frame e (modelMode st) st1) as [Hs [_ [_ Hst]]].
    split.
    + unfold sameSettings in *. cbn [setIsLoading originalImage modelMode
        isObjectRotationOnly selectedStyle selectedRatio].
      destruct Hs as [H1 [H2 [H3 [H4 H5]]]]. destruct Hsame as [G1 [G2 [G3 [G4 G5]]]].
      repeat split; congruence.
    + split; [reflexivity |]. right. exact Hst.
Qed.

Lemma run_complete :
  status (fst run) = js "Complete" ->
  length (generatedImages (fst run)) = 3%nat
  /\ error (fst run) = []
  /\ exists prompts w1,
       getRotationPrompts base64Image mimeType0 (isObjectRotationOnly st)
         (modelMode st) w = (Return prompts, w1)
       /\ map prompt (generatedImages (fst run)) = firstn 3 prompts.
Proof.
  destruct processBody_spec as [added [Himgs [_ [_ [_ [_ [Herr Hres]]]]]]].
  unfold run, processImage. fold body.
  destruct body as [[[u | e] st1] w1]; cbn [fst snd] in *.
  - intros _. destruct Hres as [_ [Hlen Hprompts]].
    destruct added as [| a added]; [discriminate |].
    cbn [setIsLoading generatedImages error]. rewrite Himgs.
    split; [exact Hlen |]. split; [exact Herr | exact Hprompts].
  - destruct (handleFailure_frame e (modelMode st) st1) as [_ [_ [_ Hst]]].
    cbn [setIsLoading status]. rewrite Hst. intros H. vm_compute in H. discriminate.
Qed.

(** Whatever the two operations do, a run ends not loading, with the
    status Complete and no error or with the status Failed, and it leaves
    the original image, the mode, the framing, the style and the ratio as
    they were. *)
Theorem processImage_frame :
  sameSettings (fst run) st
  /\ isLoading (fst run) = false
  /\ (status (fst run) = js "Complete" /\ error (fst run) = []
      \/ status (fst run) = js "Failed").
Proof.
  destruct run_ends as [Hsame [Hload Hstatus]].
  split; [exact Hsame |]. split; [exact Hload |].
  destruct Hstatus as [Hdone | Hfailed]; [left; exact Hdone | right; exact Hfailed].
Qed.

(** A run that ends Complete has stored exactly three images, the i-th
    with the i-th prompt that prompt derivation returned, and no error. *)
Theorem processImage_complete :
  status (fst run) = js "Complete" ->
  length (generatedImages (fst run)) = 3%nat
  /\ error (fst run) = []
  /\ exists prompts w1,
       getRotationPrompts base64Image mimeType0 (isObjectRotationOnly st)
         (modelMode st) w = (Return prompts, w1)
       /\ map prompt (generatedImages (fst run)) = firstn 3 prompts.
Proof.
  intros Hdone. destruct (run_complete Hdone) as [Hthree [Herr Hprompts]].
  split; [exact Hthree |]. split; [exact Herr | exact Hprompts].
Qed.

(** A prompt list of fewer than three entries never reaches the renderer:
    the run fails at once with its own message, and the images of the page
    are untouched. *)
Theorem processImage_short_prompts (prompts : list jsstring) (w1 : W) :
  getRotationPrompts base64Image mimeType0 (isObjectRotationOnly st) (modelMode st) w
  = (Return prompts, w1) ->
  (length prompts < 3)%nat ->
  snd run = w1
  /\ generatedImages (fst run) = generatedImages st
  /\ status (fst run) = js "Failed"
  /\ error (fst run)
     = js "Could not determine rotation angles. Please try another image."
  /\ hasApiKey (fst run) = hasApiKey st.
Proof.
  intros Hprompts Hshort. unfold run, processImage, processBody.
  rewrite Hprompts. apply Nat.ltb_lt in Hshort. rewrite Hshort.
  repeat split.
Qed.

(** The key flag is cleared by a run only in pro mode: in standard mode a
    run leaves it as it was and the page is not locked afterwards. *)
Theorem processImage_standard_keeps_key :
  modelMode st = standard ->
  hasApiKey (fst run) = hasApiKey st /\ isProModeLocked (fst run) = false.
Proof.
  intros Hmode.
  destruct run_ends as [[_ [Hm _]] _].
  destruct processBody_spec as [added [_ [_ [_ [Hkey _]]]]].
  split.
  - unfold run, processImage. fold body.
    destruct body as [[[u | e] st1] w1]; cbn [fst snd] in *; [exact Hkey |].
    cbn [setIsLoading hasApiKey]. rewrite <- Hkey. rewrite Hmode.
    unfold handleFailure. destruct e as [code message | code message].
    + destruct (includes message (js "RESOURCE_EXHAUSTED") || includes message (js "429"));
        [reflexivity |].
      destruct (includes message (js "503") || includes message (js "overloaded"));
        [reflexivity |].
      destruct (includes message (js "Requested entity was not found")); reflexivity.
    + reflexivity.
  - unfold isProModeLocked. rewrite Hm, Hmode. reflexivity.
Qed.

End RunFacts.

(** ** Uploads, and the states of the page *)

Section UploadFacts.

Import GeminiService App Page Runtime.

Context {W B C : Type}.
Variable getRotationPrompts :
  jsstring -> jsstring -> bool -> ModelMode -> W -> outcome (list jsstring) * W.
Variable generateRotatedImage :
  jsstring -> jsstring -> jsstring -> ModelMode -> jsstring -> jsstring ->
  W -> outcome jsstring * W.
Variable fetchBlob : jsstring -> option B.
Variable generateAsync : list (jsstring * B) -> option C.

Let upload := handleImageUpload getRotationPrompts generateRotatedImage.
Let handle := handle getRotationPrompts generateRotatedImage fetchBlob generateAsync.
Let play := play getRotationPrompts generateRotatedImage fetchBlob generateAsync.
Let reachable := reachable getRotationPrompts generateRotatedImage fetchBlob generateAsync.

Lemma split_no_separator (s : jsstring) (sep : N) :
  Forall (fun c => c <> sep) s -> split s sep = [s].
Proof.
  induction 1 as [| c s Hc _ IH]; cbn; [reflexivity |].
  apply N.eqb_neq in Hc. rewrite Hc, IH. reflexivity.
Qed.

Lemma split_at_separator (a b : jsstring) (sep : N) :
  Forall (fun c => c <> sep) a ->
  split (a ++ sep :: b) sep = a :: split b sep.
Proof.
  induction 1 as [| c a Hc _ IH]; cbn.
  - rewrite N.eqb_refl. reflexivity.
  - apply N.eqb_neq in Hc. rewrite Hc, IH. reflexivity.
Qed.

Lemma upload_outcome (fileType result : jsstring) (st st' : AppState) (w w' : W) :
  upload (Some fileType) (Loaded result) st w = Some (st', w') ->
  (exists base64Image,
      nth_error (split result 44) 1 = Some base64Image
      /\ originalImage st'
         = Some (js "data:" ++ fileType ++ js ";base64," ++ base64Image))
  /\ isLoading st' = false
  /\ (length (generatedImages st') <= 3)%nat
  /\ (status st' = js "Complete" \/ status st' = js "Failed")
  /\ (isFinished st' = true <-> status st' = js "Complete").
Proof.
  unfold upload, handleImageUpload.
  destruct (nth_error (split result 44) 1) as [base64Image |]; [| discriminate].
  remember (setOriginalImage
              (Some (js "data:" ++ fileType ++ js ";base64," ++ base64Image))
              (setStatus (js "Reading image...")
                 (setIsLoading true (resetState st)))) as st0 eqn:Hst0.
  assert (Hg0 : generatedImages st0 = []) by (subst st0; reflexivity).
  assert (Ho0 : originalImage st0
                = Some (js "data:" ++ fileType ++ js ";base64," ++ base64Image))
    by (subst st0; reflexivity).
  clear Hst0. intros H. injection H as Hrun.
  pose proof (run_ends getRotationPrompts generateRotatedImage
                base64Image fileType st0 w) as Hframe.
  pose proof (run_complete getRotationPrompts generateRotatedImage
                base64Image fileType st0 w) as Hcomplete.
  destruct (processBody_spec getRotationPrompts generateRotatedImage
              base64Image fileType st0 w)
    as [added [Himgs [Hlen [_ [_ [_ [_ Hres]]]]]]].
  rewrite Hrun in Hframe, Hcomplete. cbn [fst] in Hframe, Hcomplete.
  destruct Hframe as [[Horig _] [Hload Hstatus]].
  assert (Himages : generatedImages st' = added).
  { unfold processImage in Hrun.
    destruct (processBody getRotationPrompts generateRotatedImage base64Image
                fileType st0 w) as [[r st1] w1]; cbn [fst snd] in *.
    assert (H1 : generatedImages st1 = added)
      by (rewrite Himgs, Hg0; destruct added; reflexivity).
    destruct r as [u | e]; injection Hrun as <- <-.
    - exact H1.
    - destruct (handleFailure_frame e (modelMode st0) st1) as [_ [_ [Hg _]]].
      rewrite <- H1, <- Hg. reflexivity. }
  split.
  { exists base64Image. split; [reflexivity |]. rewrite Horig. exact Ho0. }
  split; [exact Hload |]. split; [rewrite Himages; exact Hlen |].
  split; [destruct Hstatus as [[H _] | H]; [left | right]; exact H |].
  unfold isFinished. rewrite Hload, Himages. cbn [negb andb]. split.
  - intros Hthree. apply Nat.eqb_eq in Hthree.
    unfold processImage in Hrun.
    destruct (processBody getRotationPrompts generateRotatedImage base64Image
                fileType st0 w) as [[r st1] w1]; cbn [fst snd] in *.
    destruct r as [u | e]; [| lia].
    destruct Hres as [Hc _]. injection Hrun as <- <-. exact Hc.
  - intros Hc. apply Hcomplete in Hc. destruct Hc as [Hthree _].
    rewrite Himages in Hthree. apply Nat.eqb_eq. exact Hthree.
Qed.

(** A run started by an upload, whatever the client does: the page keeps
    the data URL built from the file type and the payload, is no longer
    loading, holds at most three images, and is finished exactly when its
    status is Complete. *)
Theorem upload_run (fileType result : jsstring) (st st' : AppState) (w w' : W) :
  upload (Some fileType) (Loaded result) st w = Some (st', w') ->
  (exists base64Image,
      nth_error (split result 44) 1 = Some base64Image
      /\ originalImage st'
         = Some (js "data:" ++ fileType ++ js ";base64," ++ base64Image))
  /\ isLoading st' = false
  /\ (length (generatedImages st') <= 3)%nat
  /\ (status st' = js "Complete" \/ status st' = js "Failed")
  /\ (isFinished st' = true <-> status st' = js "Complete").
Proof.
  intros Hup.
  destruct (upload_outcome fileType result st st' w w' Hup)
    as [Horig [Hload [Hlen [Hstatus Hfin]]]].
  split; [exact Horig |]. split; [exact Hload |]. split; [exact Hlen |].
  split; [exact Hstatus | exact Hfin].
Qed.

(** The page keeps the reader's data URL as it is and hands its payload to
    the client: for a file type and a payload without comma, the original
    image is the URL the reader produced. *)
Theorem upload_keeps_data_url (fileType payload : jsstring) (st : AppState) (w : W) :
  Forall (fun c => c <> 44%N) fileType ->
  Forall (fun c => c <> 44%N) payload ->
  exists st0,
    upload (Some fileType)
      (Loaded (js "data:" ++ fileType ++ js ";base64," ++ payload)) st w
    = Some (processImage getRotationPrompts generateRotatedImage payload fileType st0 w)
    /\ originalImage st0 = Some (js "data:" ++ fileType ++ js ";base64," ++ payload)
    /\ generatedImages st0 = []
    /\ isLoading st0 = true.
Proof.
  intros Htype Hpayload. unfold upload, handleImageUpload.
  assert (Hsplit : nth_error
                     (split (js "data:" ++ fileType ++ js ";base64," ++ payload) 44) 1
                   = Some payload).
  { replace (js "data:" ++ fileType ++ js ";base64," ++ payload)
      with ((js "data:" ++ fileType ++ js ";base64") ++ 44%N :: payload).
    - rewrite split_at_separator, (split_no_separator payload 44 Hpayload);
        [reflexivity |].
      apply Forall_app. split; [repeat constructor; discriminate |].
      apply Forall_app. split; [exact Htype | repeat constructor; discriminate].
    - rewrite <- !app_assoc. reflexivity. }
  rewrite Hsplit. eexists. split; [reflexivity |]. repeat split.
Qed.

(** A failed read leaves a page that is idle again but for its error:
    nothing was sent to the client and the upload is offered again. *)
Lemma upload_read_failure (fileType : jsstring) (st : AppState) (w : W) :
  exists st',
    upload (Some fileType) ReadFailed st w = Some (st', w)
    /\ originalImage st' = None
    /\ generatedImages st' = []
    /\ isLoading st' = false
    /\ status st' = []
    /\ error st' = js "Failed to read the image file."
    /\ (isProModeLocked st = false -> uploadEnabled st' = true).
Proof.
  eexists. split; [reflexivity |]. repeat split.
  unfold uploadEnabled, isProModeLocked, noOriginal. cbn.
  intros H. rewrite H. reflexivity.
Qed.

(** The handlers other than the upload and Reset do not touch the images. *)
Lemma handle_keeps_images (e : event) (st st' : AppState) (w w' : W) :
  match e with Upload _ _ | Reset => False | _ => True end ->
  handle e st w = Some (st', w') ->
  originalImage st' = originalImage st
  /\ generatedImages st' = generatedImages st
  /\ isLoading st' = isLoading st
  /\ (status st' = js "Complete" -> status st = js "Complete").
Proof.
  unfold handle, Page.handle.
  destruct e as [ft rd | | m | b | sty | rat | sel |]; intros He H;
    try contradiction; injection H as <- <-.
  - repeat split; auto.
  - repeat split; auto.
  - repeat split; auto.
  - repeat split; auto.
  - destruct sel; repeat split; auto.
  - unfold handleDownloadZip.
    destruct (originalImage st) as [[| c o] |] eqn:Ho;
      try (cbn [fst]; rewrite Ho; repeat split; auto; fail).
    destruct (length (generatedImages st) <? 3)%nat;
      [cbn [fst]; rewrite Ho; repeat split; auto |].
    match goal with
    | |- context [match ?content with Some _ => _ | None => _ end] =>
        destruct content
    end; cbn; rewrite Ho; repeat split; intros H; vm_compute in H; discriminate.
Qed.

Lemma reachable_invariant (st : AppState) (w : W) :
  reachable st w -> settled st.
Proof.
  unfold reachable. induction 1 as [studio w | e st st' w w' Hreach IH Hstep].
  - destruct studio as [[|] |]; unfold settled; cbn;
      (split; [lia |]); (split; [intros H; contradiction H; reflexivity |]);
      (split; [reflexivity |]); intros H; vm_compute in H; discriminate.
  - destruct IH as [I1 [I2 [I3 I4]]].
    destruct e as [ft rd | | m | b | sty | rat | sel |].
    + cbn [Page.handle] in Hstep. destruct rd as [result |].
      * pose proof (upload_outcome ft result st st' w w' Hstep)
          as [[b64 [_ Horig]] [Hload [Hlen [_ Hfin]]]].
        unfold settled. split; [exact Hlen |]. split.
        { intros _. unfold noOriginal. rewrite Horig. reflexivity. }
        split; [exact Hload |]. intros Hc. apply Hfin in Hc.
        unfold isFinished in Hc. apply andb_true_iff in Hc.
        destruct Hc as [_ Hc]. apply Nat.eqb_eq in Hc. exact Hc.
      * destruct (upload_read_failure ft st w) as [st1 [Heq [_ [Hg [Hl [Hs _]]]]]].
        unfold upload in Heq. rewrite Heq in Hstep. injection Hstep as <- <-.
        unfold settled. rewrite Hg, Hl, Hs. cbn.
        split; [lia |]. split; [intros H; contradiction H; reflexivity |].
        split; [reflexivity |]. intros H; vm_compute in H; discriminate.
    + cbn in Hstep. injection Hstep as <- <-. unfold settled. cbn.
      split; [lia |]. split; [intros H; contradiction H; reflexivity |].
      split; [reflexivity |]. intros H; vm_compute in H; discriminate.
    + apply handle_keeps_images in Hstep; [| exact I].
      destruct Hstep as [Ho [Hg [Hl Hs]]]. unfold settled, noOriginal in *.
      rewrite Ho, Hg, Hl. repeat split; auto.
    + apply handle_keeps_images in Hstep; [| exact I].
      destruct Hstep as [Ho [Hg [Hl Hs]]]. unfold settled, noOriginal in *.
      rewrite Ho, Hg, Hl. repeat split; auto.
    + apply handle_keeps_images in Hstep; [| exact I].
      destruct Hstep as [Ho [Hg [Hl Hs]]]. unfold settled, noOriginal in *.
      rewrite Ho, Hg, Hl. repeat split; auto.
    + apply handle_keeps_images in Hstep; [| exact I].
      destruct Hstep as [Ho [Hg [Hl Hs]]]. unfold settled, noOriginal in *.
      rewrite Ho, Hg, Hl. repeat split; auto.
    + apply handle_keeps_images in Hstep; [| exact I].
      destruct Hstep as [Ho [Hg [Hl Hs]]]. unfold settled, noOriginal in *.
      rewrite Ho, Hg, Hl. repeat split; auto.
    + apply handle_keeps_images in Hstep; [| exact I].
      destruct Hstep as [Ho [Hg [Hl Hs]]]. unfold settled, noOriginal in *.
      rewrite Ho, Hg, Hl. repeat split; auto.
Qed.

(** In every state the page can reach from its first render, through any
    handlers in any order: at most three images, no image without an
    original image, not loading, and the status Complete only with exactly
    three images. *)
Theorem reachable_settled (st : AppState) (w : W) :
  reachable st w ->
  (length (generatedImages st) <= 3)%nat
  /\ (generatedImages st <> [] -> noOriginal st = false)
  /\ isLoading st = false
  /\ (status st = js "Complete" -> length (generatedImages st) = 3%nat).
Proof.
  intros Hreach. destruct (reachable_invariant st w Hreach) as [H1 [H2 [H3 H4]]].
  split; [exact H1 |]. split; [exact H2 |]. split; [exact H3 | exact H4].
Qed.

(** After a run that failed, the page offers neither the upload nor Reset,
    and nothing it still offers brings them back: no sequence of offered
    events leads to a state where another run can be started. *)
Theorem failed_run_is_dead_end (fileType result : jsstring) (st st' : AppState)
    (w w' : W) (es : list event) (st2 : AppState) (w2 : W) :
  upload (Some fileType) (Loaded result) st w = Some (st', w') ->
  status st' = js "Failed" ->
  play es st' w' = Some (st2, w2) ->
  uploadEnabled st2 = false /\ resetOffered st2 = false
  /\ originalImage st2 = originalImage st'
  /\ generatedImages st2 = generatedImages st'.
Proof.
  intros Hup Hfailed.
  pose proof (upload_outcome fileType result st st' w w' Hup)
    as [[b64 [_ Horig]] [Hload [Hlen [_ Hfin]]]].
  assert (Hnot : isFinished st' = false).
  { destruct (isFinished st') eqn:Hf; [| reflexivity].
    destruct Hfin as [Hc _]. specialize (Hc eq_refl).
    rewrite Hfailed in Hc. vm_compute in Hc. discriminate. }
  assert (Hshort : (length (generatedImages st') =? 3)%nat = false).
  { unfold isFinished in Hnot. rewrite Hload in Hnot. exact Hnot. }
  assert (Hno : noOriginal st' = false).
  { unfold noOriginal. rewrite Horig. reflexivity. }
  clear Hup Hfin Hfailed Hnot Hlen Hload Horig.
  unfold play. revert st' w' Hshort Hno.
  induction es as [| e es IH]; intros st' w' Hshort Hno; cbn [Page.play].
  - intros H. injection H as <- <-.
    unfold uploadEnabled, resetOffered, isFinished.
    rewrite Hno, Hshort, !andb_false_r. cbn. repeat split.
  - destruct (offered e st') eqn:Hoff; [| discriminate].
    destruct (Page.handle getRotationPrompts generateRotatedImage fetchBlob
                generateAsync e st' w') as [[st1 w1] |] eqn:Hstep; [| discriminate].
    assert (Hkeep : originalImage st1 = originalImage st'
                    /\ generatedImages st1 = generatedImages st').
    { destruct e as [ft rd | | m | b | sty | rat | sel |]; cbn [offered] in Hoff;
        try (unfold uploadEnabled in Hoff; rewrite Hno, andb_false_r in Hoff;
             discriminate);
        try (unfold resetOffered, isFinished in Hoff;
             rewrite Hshort, !andb_false_r in Hoff; discriminate);
        (apply handle_keeps_images in Hstep; [| exact I]);
        destruct Hstep as [Ho [Hg _]]; split; assumption. }
    destruct Hkeep as [Ho Hg]. intros Hplay.
    apply IH in Hplay.
    + rewrite Ho, Hg in Hplay. exact Hplay.
    + rewrite Hg. exact Hshort.
    + unfold noOriginal in *. rewrite Ho. exact Hno.
Qed.

Lemma views_nth_error (imgs : list GeneratedImage) :
  forall i k,
    nth_error (views i imgs) k
    = match nth_error imgs k with
      | Some g =>
          Some {| Lightbox.src := src g;
                  Lightbox.label := js "View " ++ showNat (i + k + 1);
                  Lightbox.prompt := Some (prompt g) |}
      | None => None
      end.
Proof.
  induction imgs as [| g imgs IH]; intros i k.
  - destruct k; reflexivity.
  - destruct k as [| k]; cbn [views nth_error].
    + rewrite Nat.add_0_r. reflexivity.
    + rewrite IH. replace (S i + k + 1)%nat with (i + S k + 1)%nat by lia.
      reflexivity.
Qed.

(** Every click the grid offers opens the lightbox on the image of the
    clicked cell: the original for cell 0, and for cell k the k-th view
    with its label and its prompt. *)
Theorem cell_click_opens_its_image (st : AppState) (w : W) (cell : nat)
    (idx : Z) (lightboxIndex : option Z) :
  reachable st w ->
  cellClick cell st = Some idx ->
  handleCellClick idx st lightboxIndex = Some idx
  /\ exists img,
       Lightbox.currentImage (lightboxImages st) (Some idx) = Some img
       /\ match cell with
          | O =>
              originalImage st = Some (Lightbox.src img)
              /\ Lightbox.label img = js "Original Input"
              /\ Lightbox.prompt img = None
          | S k =>
              exists g,
                nth_error (generatedImages st) k = Some g
                /\ Lightbox.src img = src g
                /\ Lightbox.label img = js "View " ++ showNat (S k)
                /\ Lightbox.prompt img = Some (prompt g)
          end.
Proof.
  intros Hreach Hclick. apply reachable_invariant in Hreach.
  destruct Hreach as [_ [Horig _]].
  unfold cellClick in Hclick. destruct cell as [| k].
  - unfold handleCellClick, lightboxImages, noOriginal in *.
    destruct (originalImage st) as [[| c o] |]; try discriminate.
    injection Hclick as <-. split; [reflexivity |].
    eexists. split; [reflexivity |]. repeat split.
  - destruct (nth_error (generatedImages st) k) as [g |] eqn:Hg; [| discriminate].
    injection Hclick as <-.
    assert (Hno : noOriginal st = false).
    { apply Horig. intros Hnil. rewrite Hnil in Hg. destruct k; discriminate. }
    unfold handleCellClick. rewrite Hno. split; [reflexivity |].
    unfold lightboxImages, noOriginal in *.
    destruct (originalImage st) as [[| c o] |]; try discriminate.
    unfold Lightbox.currentImage.
    replace (Z.of_nat k + 1 <? 0) with false by (symmetry; apply Z.ltb_ge; lia).
    replace (Z.to_nat (Z.of_nat k + 1)) with (S k) by lia.
    cbn [app nth_error]. rewrite views_nth_error, Hg. cbn [Nat.add].
    eexists. split; [reflexivity |]. exists g.
    replace (k + 1)%nat with (S k) by lia. repeat split.
Qed.

(** The download: nothing happens without an original image or with
    fewer than three images; with three images the archive
    [rotated-views.zip] is made of [original.png] and [generated_1.png] to
    [generated_3.png], in this order, and the status becomes Saved; when a
    fetch or the packing fails nothing is downloaded, the error is set and
    the status stays at Zipping. *)
Theorem handleDownloadZip_spec (st : AppState) :
  (noOriginal st = true \/ (length (generatedImages st) < 3)%nat ->
   handleDownloadZip fetchBlob generateAsync st = (st, None))
  /\ (forall o g1 g2 g3,
        originalImage st = Some o -> o <> [] ->
        generatedImages st = [g1; g2; g3] ->
        (forall bo b1 b2 b3 archive,
            fetchBlob o = Some bo -> fetchBlob (src g1) = Some b1 ->
            fetchBlob (src g2) = Some b2 -> fetchBlob (src g3) = Some b3 ->
            generateAsync [ (js "original.png", bo); (js "generated_1.png", b1);
                            (js "generated_2.png", b2); (js "generated_3.png", b3) ]
            = Some archive ->
            handleDownloadZip fetchBlob generateAsync st
            = (setStatus (js "Saved") st,
               Some {| href := archive; download := js "rotated-views.zip" |}))
        /\ (snd (handleDownloadZip fetchBlob generateAsync st) = None ->
            fst (handleDownloadZip fetchBlob generateAsync st)
            = setError (js "Failed to create ZIP.") (setStatus (js "Zipping...") st))).
Proof.
  split.
  - unfold handleDownloadZip, noOriginal.
    destruct (originalImage st) as [[| c o] |]; try reflexivity.
    intros [H | H]; [discriminate |]. apply Nat.ltb_lt in H. rewrite H. reflexivity.
  - intros o g1 g2 g3 Ho Hne Hg. unfold handleDownloadZip. rewrite Ho.
    destruct o as [| c o]; [contradiction Hne; reflexivity |].
    cbn [setStatus generatedImages]. rewrite Hg.
    cbn [length Nat.ltb Nat.leb zipGenerated]. split.
    + intros bo b1 b2 b3 archive Hbo Hb1 Hb2 Hb3 Hzip.
      rewrite Hbo, Hb1, Hb2, Hb3.
      change (zipFile (js "generated_" ++ showNat (2 + 1) ++ js ".png") b3
                (zipFile (js "generated_" ++ showNat (1 + 1) ++ js ".png") b2
                   (zipFile (js "generated_" ++ showNat (0 + 1) ++ js ".png") b1
                      (zipFile (js "original.png") bo []))))
        with [ (js "original.png", bo); (js "generated_1.png", b1);
               (js "generated_2.png", b2); (js "generated_3.png", b3) ].
      rewrite Hzip. reflexivity.
    + destruct (fetchBlob (c :: o)); [| reflexivity].
      destruct (fetchBlob (src g1)); [| reflexivity].
      destruct (fetchBlob (src g2)); [| reflexivity].
      destruct (fetchBlob (src g3)); [| reflexivity].
      match goal with
      | |- context [generateAsync ?z] => destruct (generateAsync z)
      end; [discriminate | reflexivity].
Qed.

End UploadFacts.

(** ** The lightbox *)

Section LightboxFacts.

Import Lightbox Runtime.

Variable images : list LightboxImage.

Lemma jsRem_in_range (a n : Z) :
  0 <= a -> 0 < n -> exists r, jsRem a n = Some r /\ 0 <= r < n /\ r = a mod n.
Proof.
  intros Ha Hn. unfold jsRem.
  replace (n =? 0) with false by (symmetry; apply Z.eqb_neq; lia).
  exists (Z.rem a n). split; [reflexivity |].
  rewrite Z.rem_mod_nonneg by lia. split; [apply Z.mod_pos_bound; lia | reflexivity].
Qed.

Lemma handleNext_step (x : Z) :
  0 <= x < Z.of_nat (length images) ->
  handleNext images (Some x)
  = Some (if x =? Z.of_nat (length images) - 1 then 0 else x + 1).
Proof.
  set (n := Z.of_nat (length images)). intros Hx. unfold handleNext. fold n.
  destruct (jsRem_in_range (x + 1) n) as [r [Hr [_ Hmod]]]; [lia | lia |].
  rewrite Hr. f_equal. subst r. destruct (Z.eqb_spec x (n - 1)) as [-> | Hne].
  - replace (n - 1 + 1) with (1 * n) by ring. apply Z.mod_mul. lia.
  - apply Z.mod_small. lia.
Qed.

Lemma handlePrev_step (x : Z) :
  0 <= x < Z.of_nat (length images) ->
  handlePrev images (Some x)
  = Some (if x =? 0 then Z.of_nat (length images) - 1 else x - 1).
Proof.
  set (n := Z.of_nat (length images)). intros Hx. unfold handlePrev. fold n.
  destruct (jsRem_in_range (x - 1 + n) n) as [r [Hr [_ Hmod]]]; [lia | lia |].
  rewrite Hr. f_equal. subst r. destruct (Z.eqb_spec x 0) as [-> | Hne].
  - replace (0 - 1 + n) with (n - 1) by ring. apply Z.mod_small. lia.
  - replace (x - 1 + n) with (x - 1 + 1 * n) by ring.
    rewrite Z.mod_add by lia. apply Z.mod_small. lia.
Qed.

(** From an index of the list, next and previous give an index of the
    list again, wrap around at the two ends, and undo each other. *)
Theorem lightbox_navigation (i : Z) :
  0 <= i < Z.of_nat (length images) ->
  exists j k,
    handleNext images (Some i) = Some j
    /\ handlePrev images (Some i) = Some k
    /\ 0 <= j < Z.of_nat (length images)
    /\ 0 <= k < Z.of_nat (length images)
    /\ j = (if i =? Z.of_nat (length images) - 1 then 0 else i + 1)
    /\ k = (if i =? 0 then Z.of_nat (length images) - 1 else i - 1)
    /\ handlePrev images (Some j) = Some i
    /\ handleNext images (Some k) = Some i.
Proof.
  set (n := Z.of_nat (length images)). intros Hi.
  exists (if i =? n - 1 then 0 else i + 1), (if i =? 0 then n - 1 else i - 1).
  split; [apply handleNext_step; exact Hi |].
  split; [apply handlePrev_step; exact Hi |].
  split; [destruct (Z.eqb_spec i (n - 1)); lia |].
  split; [destruct (Z.eqb_spec i 0); lia |].
  split; [reflexivity |]. split; [reflexivity |]. split.
  - rewrite handlePrev_step by (fold n; destruct (Z.eqb_spec i (n - 1)); lia).
    fold n. f_equal. destruct (Z.eqb_spec i (n - 1)) as [-> | Hne].
    + cbn. ring.
    + destruct (Z.eqb_spec (i + 1) 0); lia.
  - rewrite handleNext_step by (fold n; destruct (Z.eqb_spec i 0); lia).
    fold n. f_equal. destruct (Z.eqb_spec i 0) as [-> | Hne].
    + rewrite Z.eqb_refl. reflexivity.
    + destruct (Z.eqb_spec (i - 1) (n - 1)); lia.
Qed.

(** Mounted on an image of the list, the lightbox shows an image of the
    list after any sequence of key presses. *)
Theorem lightbox_keys_keep_image (initialIndex : Z) (keys : list key) :
  0 <= initialIndex < Z.of_nat (length images) ->
  exists i img,
    currentIndex (fold_left (fun v e => handleKeyDown images e v) keys
                    (mount initialIndex)) = Some i
    /\ 0 <= i < Z.of_nat (length images)
    /\ currentImage images (Some i) = Some img.
Proof.
  intros Hi.
  assert (Hinv : forall (v : View) (i : Z),
            currentIndex v = Some i -> 0 <= i < Z.of_nat (length images) ->
            exists i',
              currentIndex (fold_left (fun v e => handleKeyDown images e v) keys v)
              = Some i'
              /\ 0 <= i' < Z.of_nat (length images)).
  { induction keys as [| e keys IH]; intros v i Hv Hr; cbn [fold_left].
    - exists i. split; assumption.
    - destruct e; cbn [handleKeyDown].
      + apply (IH _ i); [exact Hv | exact Hr].
      + apply (IH _ (if i =? Z.of_nat (length images) - 1 then 0 else i + 1)).
        * cbn. rewrite Hv. apply handleNext_step. exact Hr.
        * destruct (Z.eqb_spec i (Z.of_nat (length images) - 1)); lia.
      + apply (IH _ (if i =? 0 then Z.of_nat (length images) - 1 else i - 1)).
        * cbn. rewrite Hv. apply handlePrev_step. exact Hr.
        * destruct (Z.eqb_spec i 0); lia.
      + apply (IH _ i); [exact Hv | exact Hr]. }
  destruct (Hinv (mount initialIndex) initialIndex eq_refl Hi) as [i [Hcur Hr]].
  destruct (nth_error images (Z.to_nat i)) as [img |] eqn:Hnth.
  - exists i, img. split; [exact Hcur |]. split; [exact Hr |].
    unfold currentImage.
    replace (i <? 0) with false by (symmetry; apply Z.ltb_ge; lia). exact Hnth.
  - apply nth_error_None in Hnth. lia.
Qed.

End LightboxFacts.

(** ** The further statements at concrete inputs *)

Section MoreWitnesses.

Import GeminiService App Page Scenario Samples.

(** An operation that keeps failing with 503, at the budget 3. *)
Lemma retry_overload_escapes_witness :
  exists tr,
    trace (snd (retryWithBackoff noSleep (scripted (failing 9 unavailable 42%nat))
                  3 2000 fresh)) = trace fresh ++ tr
    /\ Z.of_nat (invocations tr) = 3 + 1
    /\ delays tr = doubling 2000 (Z.to_nat 3).
Proof.
  apply (retry_overload_escapes_after_budget noSleep
           (scripted (failing 9 unavailable 42%nat)) 3 2000 fresh unavailable).
  - lia.
  - reflexivity.
  - reflexivity.
Defined.

Lemma retry_total_wait_witness :
  exists tr,
    trace (snd (retryWithBackoff noSleep (scripted (failing 9 unavailable 42%nat))
                  3 2000 fresh)) = trace fresh ++ tr
    /\ 0 <= fold_right Z.add 0 (delays tr) <= 2000 * (2 ^ 3 - 1).
Proof.
  apply (retry_total_wait_bounded noSleep
           (scripted (failing 9 unavailable 42%nat)) 3 2000 fresh); lia.
Defined.

(** No key is configured. *)
Lemma service_requires_key_witness :
  getRotationPrompts (fun _ w => w) None (answering (textResponse (js "{}")))
    (fun _ => []) (js "AAAA") (js "image/png") false standard
    {| world := tt; trace := [] |}
  = (Throw (newError "API_KEY environment variable is not set"),
     {| world := tt; trace := [] |})
  /\ generateRotatedImage (fun _ w => w) None (answering (textResponse (js "{}")))
       (js "AAAA") (js "image/png") (js "front") standard None None
       {| world := tt; trace := [] |}
     = (Throw (newError "API_KEY environment variable is not set"),
        {| world := tt; trace := [] |}).
Proof.
  apply (service_requires_key (fun _ w => w) None
           (answering (textResponse (js "{}"))) (fun _ => [])
           (js "AAAA") (js "image/png") (js "front") false standard None None
           {| world := tt; trace := [] |}).
  left. reflexivity.
Defined.

(** The model answers with a text that is not JSON. *)
Lemma getRotationPrompts_errors_witness :
  invalidInstructions = newError "API_KEY environment variable is not set"
  \/ invalidInstructions = invalidInstructions
  \/ invalidInstructions = malformed
  \/ exists key w w',
       Some (js "key") = Some key
       /\ answering (textResponse (js "no")) key
            (promptsRequest (fun _ => []) (js "AAAA") (js "image/png") false standard) w
          = (Throw invalidInstructions, w').
Proof.
  apply (getRotationPrompts_errors (fun _ w => w) (Some (js "key"))
           (answering (textResponse (js "no"))) (fun _ => [])
           (js "AAAA") (js "image/png") false standard
           {| world := tt; trace := [] |} invalidInstructions).
  reflexivity.
Defined.

(** The model answers with a text and no image. *)
Lemma generateRotatedImage_errors_witness :
  noImage = newError "API_KEY environment variable is not set"
  \/ noImage = noImage
  \/ exists key request w w',
       Some (js "key") = Some key
       /\ answering (textResponse (js "no")) key request w = (Throw noImage, w').
Proof.
  apply (generateRotatedImage_errors (fun _ w => w) (Some (js "key"))
           (answering (textResponse (js "no")))
           (js "AAAA") (js "image/png") (js "front") standard None None
           {| world := tt; trace := [] |} noImage).
  reflexivity.
Defined.

(** The bare array of the failing input of C4. *)
Lemma parsePrompts_at_most_three_witness :
  (length [JStr (js "Rotate to the front view"); JStr (js "Rotate to the top view")]
   <= 3)%nat
  /\ Forall (fun p => isString p = true)
       [JStr (js "Rotate to the front view"); JStr (js "Rotate to the top view")].
Proof.
  apply (parsePrompts_at_most_three_strings
           (Some (jsq "['Rotate to the front view', null, 'Rotate to the top view']"))).
  vm_compute. reflexivity.
Defined.

(** An answer in a fence with an upper-case tag. *)
Lemma parsePrompts_ignores_fences_witness :
  stripFences (js "```" ++ js "JSON" ++ jsq "{'prompts':[]}" ++ js "```")
  = trim (jsq "{'prompts':[]}")
  /\ parsePrompts (Some (js "```" ++ js "JSON" ++ jsq "{'prompts':[]}" ++ js "```"))
     = parsePrompts (Some (jsq "{'prompts':[]}"))
  /\ Part001.parsePrompts
       (Some (js "```" ++ js "JSON" ++ jsq "{'prompts':[]}" ++ js "```"))
     = Part001.parsePrompts (Some (jsq "{'prompts':[]}")).
Proof.
  apply (parsePrompts_ignores_fences (js "JSON") (jsq "{'prompts':[]}")).
  - repeat constructor; discriminate.
  - left. reflexivity.
Defined.

(** An object between two remarks. *)
Lemma parsePrompts_ignores_commentary_witness :
  parsePrompts (Some (js "Sure: " ++ (123%N :: jsq "'prompts':[]" ++ [125%N]) ++ js " Done."))
  = parsePrompts (Some (123%N :: jsq "'prompts':[]" ++ [125%N]))
  /\ Part001.parsePrompts
       (Some (js "Sure: " ++ (123%N :: jsq "'prompts':[]" ++ [125%N]) ++ js " Done."))
     = Part001.parsePrompts (Some (123%N :: jsq "'prompts':[]" ++ [125%N])).
Proof.
  apply (parsePrompts_ignores_commentary (js "Sure: ") (jsq "'prompts':[]") (js " Done.")).
  - repeat constructor; discriminate.
  - repeat constructor; discriminate.
  - repeat constructor; discriminate.
Defined.

(** A text of two spaces. *)
Lemma parsePrompts_blank_text_witness :
  parsePrompts (Some (js "  ")) = Throw invalidInstructions
  /\ Part001.parsePrompts (Some (js "  ")) = Throw malformed.
Proof.
  apply (parsePrompts_blank_text (Some (js "  "))).
  repeat constructor.
Defined.

(** A run with a client that succeeds. *)
Lemma processImage_complete_witness :
  length (generatedImages
            (fst (processImage threePrompts (rendering 9) (js "iVBORw0KGgo=")
                    (js "image/png") uploaded 0%nat))) = 3%nat
  /\ error (fst (processImage threePrompts (rendering 9) (js "iVBORw0KGgo=")
                   (js "image/png") uploaded 0%nat)) = []
  /\ exists prompts w1,
       threePrompts (js "iVBORw0KGgo=") (js "image/png") (isObjectRotationOnly uploaded)
         (modelMode uploaded) 0%nat = (Return prompts, w1)
       /\ map prompt
            (generatedImages
               (fst (processImage threePrompts (rendering 9) (js "iVBORw0KGgo=")
                       (js "image/png") uploaded 0%nat)))
          = firstn 3 prompts.
Proof.
  apply (processImage_complete threePrompts (rendering 9) (js "iVBORw0KGgo=")
           (js "image/png") uploaded 0%nat).
  reflexivity.
Defined.

(** A run with a client that derives two prompts only. *)
Lemma processImage_short_prompts_witness :
  snd (processImage twoPrompts (rendering 9) (js "iVBORw0KGgo=") (js "image/png")
         uploaded 0%nat) = 1%nat
  /\ generatedImages
       (fst (processImage twoPrompts (rendering 9) (js "iVBORw0KGgo=") (js "image/png")
               uploaded 0%nat)) = generatedImages uploaded
  /\ status
       (fst (processImage twoPrompts (rendering 9) (js "iVBORw0KGgo=") (js "image/png")
               uploaded 0%nat)) = js "Failed"
  /\ error
       (fst (processImage twoPrompts (rendering 9) (js "iVBORw0KGgo=") (js "image/png")
               uploaded 0%nat))
     = js "Could not determine rotation angles. Please try another image."
  /\ hasApiKey
       (fst (processImage twoPrompts (rendering 9) (js "iVBORw0KGgo=") (js "image/png")
               uploaded 0%nat)) = hasApiKey uploaded.
Proof.
  apply (processImage_short_prompts twoPrompts (rendering 9) (js "iVBORw0KGgo=")
           (js "image/png") uploaded 0%nat [js "front"; js "side"] 1%nat).
  - reflexivity.
  - cbn. lia.
Defined.

(** A run in standard mode whose second render call fails. *)
Lemma processImage_standard_keeps_key_witness :
  hasApiKey (fst (processImage threePrompts (rendering 2) (js "iVBORw0KGgo=")
                    (js "image/png") uploaded 0%nat)) = hasApiKey uploaded
  /\ isProModeLocked
       (fst (processImage threePrompts (rendering 2) (js "iVBORw0KGgo=")
               (js "image/png") uploaded 0%nat)) = false.
Proof.
  apply (processImage_standard_keeps_key threePrompts (rendering 2)
           (js "iVBORw0KGgo=") (js "image/png") uploaded 0%nat).
  reflexivity.
Defined.

(** The upload of a PNG file with a client that succeeds. *)
Lemma upload_run_witness :
  (exists base64Image,
      nth_error (Runtime.split pngUrl 44) 1 = Some base64Image
      /\ originalImage (fst (afterUpload 9))
         = Some (js "data:" ++ js "image/png" ++ js ";base64," ++ base64Image))
  /\ isLoading (fst (afterUpload 9)) = false
  /\ (length (generatedImages (fst (afterUpload 9))) <= 3)%nat
  /\ (status (fst (afterUpload 9)) = js "Complete"
      \/ status (fst (afterUpload 9)) = js "Failed")
  /\ (isFinished (fst (afterUpload 9)) = true
      <-> status (fst (afterUpload 9)) = js "Complete").
Proof.
  apply (upload_run threePrompts (rendering 9) (js "image/png") pngUrl
           (checkApiKey None mounted) (fst (afterUpload 9)) 0%nat (snd (afterUpload 9))).
  reflexivity.
Defined.

Lemma upload_keeps_data_url_witness :
  exists st0,
    handleImageUpload threePrompts (rendering 9) (Some (js "image/png"))
      (Loaded (js "data:" ++ js "image/png" ++ js ";base64," ++ js "iVBORw0KGgo="))
      mounted 0%nat
    = Some (processImage threePrompts (rendering 9) (js "iVBORw0KGgo=")
              (js "image/png") st0 0%nat)
    /\ originalImage st0
       = Some (js "data:" ++ js "image/png" ++ js ";base64," ++ js "iVBORw0KGgo=")
    /\ generatedImages st0 = []
    /\ isLoading st0 = true.
Proof.
  apply (upload_keeps_data_url threePrompts (rendering 9) (js "image/png")
           (js "iVBORw0KGgo=") mounted 0%nat).
  - repeat constructor; discriminate.
  - repeat constructor; discriminate.
Defined.

(** The page after a first upload. *)
Lemma reachable_settled_witness : settled (fst (afterUpload 9)).
Proof.
  apply (reachable_settled threePrompts (rendering 9) noFetch noArchive
           (fst (afterUpload 9)) (snd (afterUpload 9))).
  apply (reach_step threePrompts (rendering 9) noFetch noArchive
           (Upload (js "image/png") (Loaded pngUrl))
           (checkApiKey None mounted) _ 0%nat _).
  - apply reach_mounted.
  - reflexivity.
Defined.

(** After a failed run the user switches to pro mode and back. *)
Lemma failed_run_is_dead_end_witness :
  uploadEnabled (setModelMode standard (setModelMode pro (fst (afterUpload 2)))) = false
  /\ resetOffered (setModelMode standard (setModelMode pro (fst (afterUpload 2)))) = false
  /\ originalImage (setModelMode standard (setModelMode pro (fst (afterUpload 2))))
     = originalImage (fst (afterUpload 2))
  /\ generatedImages (setModelMode standard (setModelMode pro (fst (afterUpload 2))))
     = generatedImages (fst (afterUpload 2)).
Proof.
  apply (failed_run_is_dead_end threePrompts (rendering 2) noFetch noArchive
           (js "image/png") pngUrl (checkApiKey None mounted) (fst (afterUpload 2))
           0%nat (snd (afterUpload 2)) [SelectMode pro; SelectMode standard]
           _ (snd (afterUpload 2))).
  - reflexivity.
  - reflexivity.
  - reflexivity.
Defined.

(** A click on the cell of the second view. *)
Lemma cell_click_witness :
  handleCellClick 2 (fst (afterUpload 9)) None = Some 2
  /\ exists img,
       Lightbox.currentImage (lightboxImages (fst (afterUpload 9))) (Some 2) = Some img
       /\ exists g,
            nth_error (generatedImages (fst (afterUpload 9))) 1 = Some g
            /\ Lightbox.src img = src g
            /\ Lightbox.label img = js "View " ++ Runtime.showNat 2
            /\ Lightbox.prompt img = Some (prompt g).
Proof.
  apply (cell_click_opens_its_image threePrompts (rendering 9) noFetch noArchive
           (fst (afterUpload 9)) (snd (afterUpload 9)) 2%nat 2 None).
  - apply (reach_step threePrompts (rendering 9) noFetch noArchive
             (Upload (js "image/png") (Loaded pngUrl))
             (checkApiKey None mounted) _ 0%nat _).
    + apply reach_mounted.
    + reflexivity.
  - reflexivity.
Defined.

(** The lightbox of a finished page, on its last image. *)
Lemma lightbox_navigation_witness :
  exists j k,
    Lightbox.handleNext fourImages (Some 3) = Some j
    /\ Lightbox.handlePrev fourImages (Some 3) = Some k
    /\ 0 <= j < Z.of_nat (length fourImages)
    /\ 0 <= k < Z.of_nat (length fourImages)
    /\ j = (if 3 =? Z.of_nat (length fourImages) - 1 then 0 else 3 + 1)
    /\ k = (if 3 =? 0 then Z.of_nat (length fourImages) - 1 else 3 - 1)
    /\ Lightbox.handlePrev fourImages (Some j) = Some 3
    /\ Lightbox.handleNext fourImages (Some k) = Some 3.
Proof.
  apply (lightbox_navigation fourImages 3). cbn. lia.
Defined.

Lemma lightbox_keys_witness :
  exists i img,
    Lightbox.currentIndex
      (fold_left (fun v e => Lightbox.handleKeyDown fourImages e v)
         [Lightbox.ArrowRight; Lightbox.ArrowRight; Lightbox.ArrowLeft; Lightbox.OtherKey]
         (Lightbox.mount 3)) = Some i
    /\ 0 <= i < Z.of_nat (length fourImages)
    /\ Lightbox.currentImage fourImages (Some i) = Some img.
Proof.
  apply (lightbox_keys_keep_image fourImages 3
           [Lightbox.ArrowRight; Lightbox.ArrowRight; Lightbox.ArrowLeft; Lightbox.OtherKey]).
  cbn. lia.
Defined.

(** A JSON object between a sentence and a closing remark. *)
Lemma extractObject_commentary_witness :
  extractObject (js "Sure: " ++ (123%N :: jsq "'prompts':[]" ++ [125%N]) ++ js " Done.")
  = 123%N :: jsq "'prompts':[]" ++ [125%N].
Proof.
  apply (proj2 (proj2 (extractObject_discards_commentary
                         (js "Sure: ") (jsq "'prompts':[]") (js " Done.")))).
  - repeat constructor; discriminate.
  - repeat constructor; discriminate.
Defined.

(** The download of a finished page, every fetch succeeding. *)
Lemma handleDownloadZip_witness :
  handleDownloadZip fetchUrl packNames (fst (afterUpload 9))
  = (setStatus (js "Saved") (fst (afterUpload 9)),
     Some {| href := [js "original.png"; js "generated_1.png";
                      js "generated_2.png"; js "generated_3.png"];
             download := js "rotated-views.zip" |}).
Proof.
  destruct (handleDownloadZip_spec fetchUrl packNames (fst (afterUpload 9)))
    as [_ Hzip].
  destruct (generatedImages (fst (afterUpload 9))) as [|g1 [|g2 [|g3 [|g4 rest]]]] eqn:Himgs;
    try (vm_compute in Himgs; discriminate Himgs).
  destruct (Hzip pngUrl g1 g2 g3) as [Hsaved _].
  - reflexivity.
  - discriminate.
  - reflexivity.
  - apply (Hsaved pngUrl (src g1) (src g2) (src g3)); reflexivity.
Defined.

End MoreWitnesses.
